(** * Downloader: a shallow embedding of [main.py] and its properties

    The program collects URLs from several sources, validates and
    deduplicates them, and downloads each one into an output directory.

    Python strings are sequences of Unicode code points; they are modelled
    as lists of [N].  The standard-library functions the program calls
    ([urllib.parse.urlparse], [posixpath.join], [posixpath.normpath], the
    [str] methods) are transcribed from CPython 3.12; [os.path] is
    [posixpath].  What the program gets from tables or parsers that are
    not reproduced here (Unicode normalisation, IP address syntax, the CSV,
    JSON and XML parsers) is a field of the class [PyLib]. *)

From Stdlib Require Import NArith List Ascii String Bool Lia.
From stdpp Require Import base decidable option list gmap sets.

Local Open Scope N_scope.
Local Open Scope list_scope.

(** ** Python strings *)

Abbreviation pystr := (list N).

(** A string literal of the source, as the list of its code points. *)
Definition lit (s : string) : pystr :=
  List.map N_of_ascii (list_ascii_of_string s).

Module Str.

(** [s == t] on strings. *)
Definition eqb (s t : pystr) : bool := bool_decide (s = t).

(** [bool(s)]: a string is truthy when it is not empty. *)
Definition truthy (s : pystr) : bool :=
  match s with [] => false | _ :: _ => true end.

(** [s.startswith(p)] *)
Fixpoint startswith (s p : pystr) {struct p} : bool :=
  match p, s with
  | [], _ => true
  | _ :: _, [] => false
  | a :: p', b :: s' => (a =? b) && startswith s' p'
  end.

(** [s.endswith(p)] *)
Definition endswith (s p : pystr) : bool :=
  startswith (rev s) (rev p).

(** [c in s] for a one-character string [c]. *)
Definition contains (c : N) (s : pystr) : bool :=
  existsb (N.eqb c) s.

(** [s.find(c)] for a one-character string [c]; [None] stands for -1. *)
Fixpoint find (c : N) (s : pystr) : option nat :=
  match s with
  | [] => None
  | a :: s' => if a =? c then Some O else option_map S (find c s')
  end.

(** [s.find(c, start)] *)
Definition find_from (c : N) (start : nat) (s : pystr) : option nat :=
  option_map (fun i => (start + i)%nat) (find c (drop start s)).

(** [s.rfind(c)] for a one-character string [c]. *)
Fixpoint rfind (c : N) (s : pystr) : option nat :=
  match s with
  | [] => None
  | a :: s' =>
      match rfind c s' with
      | Some i => Some (S i)
      | None => if a =? c then Some O else None
      end
  end.

(** [s.lstrip(chars)], the set of characters given by its membership
    test. *)
Fixpoint lstrip (inset : N -> bool) (s : pystr) : pystr :=
  match s with
  | [] => []
  | a :: s' => if inset a then lstrip inset s' else s
  end.

(** [s.rstrip(chars)] *)
Definition rstrip (inset : N -> bool) (s : pystr) : pystr :=
  rev (lstrip inset (rev s)).

(** [s.replace(old, new)] for a non-empty [old]: the occurrences of [old]
    are found from left to right and do not overlap.  [skip] counts the
    characters of the current occurrence still to be dropped. *)
Fixpoint replace_from (old new : pystr) (skip : nat) (s : pystr) : pystr :=
  match s with
  | [] => []
  | a :: s' =>
      match skip with
      | S k => replace_from old new k s'
      | O =>
          if startswith s old
          then new ++ replace_from old new (length old - 1) s'
          else a :: replace_from old new O s'
      end
  end.

Definition replace (old new s : pystr) : pystr := replace_from old new O s.

(** [s.replace(c, "")] for a one-character string [c]. *)
Definition remove (c : N) (s : pystr) : pystr :=
  List.filter (fun a => negb (a =? c)) s.

(** [s.split(sep)] for a one-character separator: always at least one
    field. *)
Fixpoint split (sep : N) (s : pystr) : list pystr :=
  match s with
  | [] => [[]]
  | a :: s' =>
      match split sep s' with
      | [] => [[]]
      | f :: fs => if a =? sep then [] :: f :: fs else (a :: f) :: fs
      end
  end.

(** [sep.join(fields)] for a one-character separator. *)
Fixpoint join (sep : N) (fields : list pystr) : pystr :=
  match fields with
  | [] => []
  | [f] => f
  | f :: fs => f ++ sep :: join sep fs
  end.

(** [s.isascii()] *)
Definition isascii (s : pystr) : bool := forallb (fun a => a <? 128) s.

End Str.

(** Code points the program and its libraries test for. *)
Definition ch_tab : N := 9.
Definition ch_lf : N := 10.
Definition ch_cr : N := 13.
Definition ch_space : N := 32.
Definition ch_hash : N := 35.
Definition ch_plus : N := 43.
Definition ch_minus : N := 45.
Definition ch_dot : N := 46.
Definition ch_slash : N := 47.
Definition ch_colon : N := 58.
Definition ch_semi : N := 59.
Definition ch_question : N := 63.
Definition ch_at : N := 64.
Definition ch_lbracket : N := 91.
Definition ch_rbracket : N := 93.
Definition ch_underscore : N := 95.
Definition ch_rbrace : N := 125.

Definition is_ascii_upper (c : N) : bool := (65 <=? c) && (c <=? 90).
Definition is_ascii_lower (c : N) : bool := (97 <=? c) && (c <=? 122).
Definition is_ascii_alpha (c : N) : bool := is_ascii_upper c || is_ascii_lower c.
Definition is_ascii_digit (c : N) : bool := (48 <=? c) && (c <=? 57).

(** [str.isspace] on one code point: the characters [str.strip()] removes. *)
Definition is_space (c : N) : bool :=
  ((9 <=? c) && (c <=? 13)) || ((28 <=? c) && (c <=? 32))
  || (c =? 133) || (c =? 160) || (c =? 5760)
  || ((8192 <=? c) && (c <=? 8202))
  || (c =? 8232) || (c =? 8233) || (c =? 8239) || (c =? 8287) || (c =? 12288).

(** [s.strip()] *)
Definition strip (s : pystr) : pystr := Str.rstrip is_space (Str.lstrip is_space s).

(** ** posixpath *)

Module posixpath.

(** [os.path.join(a, b)] *)
Definition join (a b : pystr) : pystr :=
  if Str.startswith b [ch_slash] then b
  else if negb (Str.truthy a) || Str.endswith a [ch_slash] then a ++ b
  else a ++ ch_slash :: b.

(** One turn of the loop of [normpath] over the components. *)
Definition normpath_step (initial_slashes : nat) (new_comps : list pystr)
    (comp : pystr) : list pystr :=
  if Str.eqb comp [] || Str.eqb comp [ch_dot] then new_comps
  else if negb (Str.eqb comp [ch_dot; ch_dot])
          || (Nat.eqb initial_slashes 0 && bool_decide (new_comps = []))
          || (negb (bool_decide (new_comps = []))
              && bool_decide (last new_comps = Some [ch_dot; ch_dot]))
       then new_comps ++ [comp]
       else removelast new_comps.

(** [os.path.normpath(path)] *)
Definition normpath (path : pystr) : pystr :=
  if Str.eqb path [] then [ch_dot]
  else
    let initial_slashes :=
      if Str.startswith path [ch_slash] then
        if Str.startswith path [ch_slash; ch_slash]
           && negb (Str.startswith path [ch_slash; ch_slash; ch_slash])
        then 2%nat else 1%nat
      else 0%nat in
    let comps := Str.split ch_slash path in
    let new_comps := fold_left (normpath_step initial_slashes) comps [] in
    let path := Str.join ch_slash new_comps in
    let path := replicate initial_slashes ch_slash ++ path in
    if Str.truthy path then path else [ch_dot].

(** [os.path.basename(p)] *)
Definition basename (p : pystr) : pystr :=
  match Str.rfind ch_slash p with
  | Some i => drop (S i) p
  | None => p
  end.

(** [os.path.dirname(p)] *)
Definition dirname (p : pystr) : pystr :=
  let head :=
    match Str.rfind ch_slash p with
    | Some i => take (S i) p
    | None => []
    end in
  if Str.truthy head && negb (Str.eqb head (replicate (length head) ch_slash))
  then Str.rstrip (N.eqb ch_slash) head
  else head.

(** [os.path.split(p)] *)
Definition split (p : pystr) : pystr * pystr := (dirname p, basename p).

End posixpath.

(** ** Exceptions and results *)

Inductive exn : Type :=
  | ValueError
  | UnicodeDecodeError
  | ParseError
  | JSONDecodeError
  | HTTPError (status : N)
  | RequestException
  | FileExistsError
  | OSError
  | RecursionError.

Definition is_FileExistsError (e : exn) : bool :=
  match e with
  | FileExistsError => true
  | _ => false
  end.

(** [isinstance(e, OSError)]: [FileExistsError] is a subclass of
    [OSError]. *)
Definition is_OSError (e : exn) : bool :=
  match e with
  | FileExistsError | OSError => true
  | _ => false
  end.

Inductive result (A : Type) : Type :=
  | Ok (a : A)
  | Raise (e : exn).
Arguments Ok {A} a.
Arguments Raise {A} e.

Definition rbind {A B} (r : result A) (k : A -> result B) : result B :=
  match r with
  | Ok a => k a
  | Raise e => Raise e
  end.

(** [try: body  except Exception: handler] for a computation without
    effects. *)
Definition try_except {A} (body : result A) (handler : exn -> A) : A :=
  match body with
  | Ok a => a
  | Raise e => handler e
  end.

(** ** The file system

    A tree of directories and regular files, kept as a finite map from the
    list of names that leads to a node from the root; the root is always a
    directory.  There are no symbolic links and no permissions: the only
    failures are those of the tree (a missing or non-directory parent, a
    name already taken, a directory where a file is wanted). *)

Module FS.

Inductive node : Type :=
  | Dir
  | File (content : list N).

Record t : Type := mk {
  nodes : gmap (list pystr) node;
  cwd : list pystr
}.

Definition is_dir (f : t) (k : list pystr) : bool :=
  bool_decide (k = [])
  || match nodes f !! k with Some Dir => true | _ => false end.

Definition present (f : t) (k : list pystr) : bool :=
  bool_decide (k = [])
  || match nodes f !! k with Some _ => true | None => false end.

(** Path resolution: every component is looked up in a directory. *)
Fixpoint walk (f : t) (cur : list pystr) (comps : list pystr)
  : option (list pystr) :=
  match comps with
  | [] => Some cur
  | c :: cs =>
      if is_dir f cur then
        if Str.eqb c [] || Str.eqb c [ch_dot] then walk f cur cs
        else if Str.eqb c [ch_dot; ch_dot] then walk f (removelast cur) cs
        else walk f (cur ++ [c]) cs
      else None
  end.

(** The place in the tree a path names, when the directories on the way
    to it exist; the place itself may still be free. *)
Definition locate (f : t) (p : pystr) : option (list pystr) :=
  if Str.truthy p
  then walk f (if Str.startswith p [ch_slash] then [] else cwd f)
         (Str.split ch_slash p)
  else None.

(** [os.path.exists(p)] *)
Definition exists_ (f : t) (p : pystr) : bool :=
  match locate f p with
  | Some k => present f k
  | None => false
  end.

(** [os.path.isdir(p)] *)
Definition isdir (f : t) (p : pystr) : bool :=
  match locate f p with
  | Some k => is_dir f k
  | None => false
  end.

(** The content of the regular file at [p]. *)
Definition read (f : t) (p : pystr) : option (list N) :=
  match locate f p with
  | Some k =>
      match nodes f !! k with
      | Some (File content) => Some content
      | _ => None
      end
  | None => None
  end.

(** [os.path.isfile(p)] *)
Definition isfile (f : t) (p : pystr) : bool :=
  match read f p with Some _ => true | None => false end.

(** [os.mkdir(p)]: trailing separators are ignored. *)
Definition mkdir (p : pystr) (f : t) : t * result unit :=
  match locate f (Str.rstrip (N.eqb ch_slash) p) with
  | Some k =>
      if present f k then (f, Raise FileExistsError)
      else (mk (<[k := Dir]> (nodes f)) (cwd f), Ok tt)
  | None =>
      if Str.truthy p && negb (Str.truthy (Str.rstrip (N.eqb ch_slash) p))
      then (f, Raise FileExistsError)
      else (f, Raise OSError)
  end.

(** [with open(p, "wb") as h: h.write(content)] *)
Definition write (p : pystr) (content : list N) (f : t) : t * result unit :=
  match locate f p with
  | Some k =>
      if is_dir f k then (f, Raise OSError)
      else (mk (<[k := File content]> (nodes f)) (cwd f), Ok tt)
  | None => (f, Raise OSError)
  end.

(** [try: mkdir(name)  except OSError: if not isdir(name): raise], the
    end of [os.makedirs(name, exist_ok=True)]. *)
Definition mkdir_exist_ok (name : pystr) (f : t) : t * result unit :=
  match mkdir name f with
  | (f', Ok _) => (f', Ok tt)
  | (f', Raise e) =>
      if is_OSError e && isdir f' name then (f', Ok tt) else (f', Raise e)
  end.

(** [os.makedirs(name, exist_ok=True)]; the recursion is on a strictly
    shorter [head], so a fuel of [length name] is never used up. *)
Fixpoint makedirs_fuel (fuel : nat) (name : pystr) (f : t) : t * result unit :=
  let '(head, tail) := posixpath.split name in
  let '(head, tail) :=
    if negb (Str.truthy tail) then posixpath.split head else (head, tail) in
  if Str.truthy head && Str.truthy tail && negb (exists_ f head) then
    match fuel with
    | O => (f, Raise RecursionError)
    | S fuel' =>
        let '(f1, r) := makedirs_fuel fuel' head f in
        match r with
        | Raise e =>
            if negb (is_FileExistsError e) then (f1, Raise e)
            else if Str.eqb tail [ch_dot] then (f1, Ok tt)
            else mkdir_exist_ok name f1
        | Ok _ =>
            if Str.eqb tail [ch_dot] then (f1, Ok tt)
            else mkdir_exist_ok name f1
        end
    end
  else mkdir_exist_ok name f.

Definition makedirs (name : pystr) (f : t) : t * result unit :=
  makedirs_fuel (length name) name f.

End FS.

(** ** The world the program runs in *)

(** What [requests.get] finds at a URL: a response, or a failure of the
    transport (time-out, DNS, connection reset, malformed response). *)
Inductive http_reply : Type :=
  | Response (status_code : N) (content : list N)
  | TransportError.

(** The lines the program prints. *)
Inductive message : Type :=
  | MsgSkipExists (filepath : pystr)
  | MsgGet (url : pystr)
  | MsgSaved (filepath : pystr)
  | MsgError (url : pystr) (e : exn)
  | MsgUrlFileNotFound (path : pystr)
  | MsgCsvFileNotFound (path : pystr)
  | MsgCsvColumnNotFound (column path : pystr) (names : option (list pystr))
  | MsgJsonFileNotFound (path : pystr)
  | MsgJsonParseFailed (path : pystr) (e : exn)
  | MsgSitemapNotFound (source : pystr)
  | MsgSitemapFailed (source : pystr) (e : exn)
  | MsgIgnoredInvalidUrl (u : pystr)
  | MsgNoUrlsProvided
  | MsgDownloading (count : nat) (workers : Z)
  | MsgAllCompleted.

Record world : Type := mkWorld {
  fs : FS.t;
  (** the lines still to be read from [sys.stdin] *)
  stdin : list pystr;
  (** what a GET of each URL yields *)
  http : pystr -> http_reply;
  (** the lines printed so far, oldest first *)
  stdout : list message;
  (** the URLs of the GETs issued so far, oldest first *)
  requests : list pystr
}.

(** A computation that may change the world and either returns or raises. *)
Definition M (A : Type) : Type := world -> world * result A.

Definition ret {A} (a : A) : M A := fun w => (w, Ok a).

Definition bind {A B} (m : M A) (k : A -> M B) : M B :=
  fun w =>
    match m w with
    | (w', Ok a) => k a w'
    | (w', Raise e) => (w', Raise e)
    end.

Definition lift {A} (r : result A) : M A := fun w => (w, r).

(** [try: body  except Exception as e: handler(e)] *)
Definition try_catch {A} (body : M A) (handler : exn -> M A) : M A :=
  fun w =>
    match body w with
    | (w', Ok a) => (w', Ok a)
    | (w', Raise e) => handler e w'
    end.

Declare Scope M_scope.
Delimit Scope M_scope with M.
Notation "x <- m ;; k" := (bind m (fun x => k))
  (at level 20, m at level 99, k at level 200, only parsing) : M_scope.
Notation "m ;; k" := (bind m (fun _ => k))
  (at level 100, k at level 200, right associativity, only parsing) : M_scope.

Definition print (m : message) : M unit :=
  fun w => (mkWorld (fs w) (stdin w) (http w) (stdout w ++ [m]) (requests w), Ok tt).

(** A query of the file system. *)
Definition fs_get {A} (q : FS.t -> A) : M A := fun w => (w, Ok (q (fs w))).

(** An operation that changes the file system. *)
Definition fs_do {A} (op : FS.t -> FS.t * result A) : M A :=
  fun w =>
    let '(f, r) := op (fs w) in
    (mkWorld f (stdin w) (http w) (stdout w) (requests w), r).

(** [for line in sys.stdin]: reads to the end of the stream. *)
Definition read_stdin : M (list pystr) :=
  fun w => (mkWorld (fs w) [] (http w) (stdout w) (requests w), Ok (stdin w)).

Definition DEFAULT_TIMEOUT : Z := 15.

(** [requests.get(url, timeout=DEFAULT_TIMEOUT)] *)
Definition requests_get (url : pystr) : M (N * list N) :=
  fun w =>
    (mkWorld (fs w) (stdin w) (http w) (stdout w) (requests w ++ [url]),
     match http w url with
     | Response status_code content => Ok (status_code, content)
     | TransportError => Raise RequestException
     end).

(** [resp.raise_for_status()]: an [HTTPError] for a 4xx or 5xx status. *)
Definition raise_for_status (resp : N * list N) : result unit :=
  let status_code := fst resp in
  if ((400 <=? status_code) && (status_code <? 500))
     || ((500 <=? status_code) && (status_code <? 600))
  then Raise (HTTPError status_code)
  else Ok tt.

(** The parsed command line. *)
Record arguments : Type := mkArguments {
  args_urls : option (list pystr);
  args_file : option pystr;
  args_stdin : bool;
  args_csv : option pystr;
  args_csv_column : pystr;
  args_json : option pystr;
  args_json_key : option pystr;
  args_sitemap : option pystr;
  args_out : pystr;
  args_preserve_path : bool;
  args_skip_existing : bool;
  args_producers : Z
}.

(** The truth value of an optional string argument. *)
Definition given (o : option pystr) : bool :=
  match o with
  | Some s => Str.truthy s
  | None => false
  end.

(** ** What the model takes from the Python libraries *)

Unset Elimination Schemes.

(** Parsed JSON ([json.load]): a Python [dict] keeps its items in insertion
    order. *)
Inductive json : Type :=
  | JNull
  | JBool (b : bool)
  | JNum (n : pystr)
  | JStr (s : pystr)
  | JList (items : list json)
  | JDict (items : list (pystr * json)).

(** An [xml.etree.ElementTree.Element]: its tag (a string, or [None] here
    for the comment and processing-instruction factories), its text and
    its children. *)
Inductive element : Type :=
  | Element (tag : option pystr) (text : option pystr) (children : list element).

Set Elimination Schemes.

(** A [csv.DictReader]: the field names ([None] when the file is empty)
    and the rows, each a dict from field name to cell ([None] for a cell
    the row does not have).  Both are read on demand and may raise. *)
Record dictreader : Type := DictReader {
  fieldnames : result (option (list pystr));
  rows : result (list (gmap pystr (option pystr)))
}.

Class PyLib : Type := {
  (** [unicodedata.normalize('NFKC', s)] *)
  normalize_NFKC : pystr -> pystr;
  (** [_check_bracketed_host(h)] returns ([true]) or raises [ValueError]. *)
  check_bracketed_host : pystr -> bool;
  (** [str.lower] on a code point outside ASCII. *)
  lower_nonascii : N -> pystr;
  (** decoding a file as UTF-8 text and iterating over its lines *)
  text_lines : list N -> result (list pystr);
  (** [csv.DictReader] over the decoded file *)
  csv_DictReader : list N -> dictreader;
  (** [json.load] *)
  json_load : list N -> result json;
  (** [ET.fromstring] *)
  ET_fromstring : list N -> result element
}.

Section Program.

Context {lib : PyLib}.

(** [s.lower()] *)
Definition lower_char (c : N) : pystr :=
  if c <? 128 then [if is_ascii_upper c then c + 32 else c] else lower_nonascii c.

Definition lower (s : pystr) : pystr := concat (List.map lower_char s).

(** ** urllib.parse *)

Record ParseResult : Type := mkParseResult {
  scheme : pystr;
  netloc : pystr;
  path : pystr;
  params : pystr;
  query : pystr;
  fragment : pystr
}.

Definition uses_params : list pystr :=
  Eval cbv in List.map lit
    [""; "ftp"; "hdl"; "prospero"; "http"; "imap"; "https"; "shttp"; "rtsp";
     "rtspu"; "sip"; "sips"; "mms"; "sftp"; "tel"]%string.

Definition is_scheme_char (c : N) : bool :=
  is_ascii_alpha c || is_ascii_digit c
  || (c =? ch_plus) || (c =? ch_minus) || (c =? ch_dot).

(** [_WHATWG_C0_CONTROL_OR_SPACE] *)
Definition is_c0_control_or_space (c : N) : bool := c <=? 32.

(** [_splitnetloc(url, 2)] *)
Definition _splitnetloc (url : pystr) (start : nat) : pystr * pystr :=
  let delim :=
    fold_left
      (fun delim c =>
         match Str.find_from c start url with
         | Some wdelim => Nat.min delim wdelim
         | None => delim
         end)
      [ch_slash; ch_question; ch_hash] (length url) in
  (drop start (take delim url), drop delim url).

(** [_checknetloc(netloc)]: [true] when it returns, [false] when it raises
    [ValueError]. *)
Definition _checknetloc (netloc : pystr) : bool :=
  if negb (Str.truthy netloc) || Str.isascii netloc then true
  else
    let n := Str.remove ch_question
               (Str.remove ch_hash (Str.remove ch_colon (Str.remove ch_at netloc))) in
    let netloc2 := normalize_NFKC n in
    if Str.eqb n netloc2 then true
    else negb (existsb (fun c => Str.contains c netloc2)
                 [ch_slash; ch_question; ch_hash; ch_at; ch_colon]).

(** [s.partition(c)[2]] and [s.partition(c)[0]] *)
Definition partition_after (c : N) (s : pystr) : pystr :=
  match Str.find c s with
  | Some i => drop (S i) s
  | None => []
  end.

Definition partition_before (c : N) (s : pystr) : pystr :=
  match Str.find c s with
  | Some i => take i s
  | None => s
  end.

(** [url.split(c, 1)] when [c in url]: the parts before and after the first
    [c]. *)
Definition split_once (c : N) (url : pystr) : option (pystr * pystr) :=
  match Str.find c url with
  | Some i => Some (take i url, drop (S i) url)
  | None => None
  end.

Definition urlsplit (url : pystr) : result ParseResult :=
  let url := Str.lstrip is_c0_control_or_space url in
  let url := Str.remove ch_lf (Str.remove ch_cr (Str.remove ch_tab url)) in
  let '(scheme, url) :=
    match Str.find ch_colon url with
    | Some (S i') =>
        let i := S i' in
        if is_ascii_alpha (hd 0 url) && forallb is_scheme_char (take i url)
        then (lower (take i url), drop (S i) url)
        else ([], url)
    | _ => ([], url)
    end in
  rbind
    (if Str.eqb (take 2 url) [ch_slash; ch_slash] then
       let '(netloc, url) := _splitnetloc url 2 in
       let has_l := Str.contains ch_lbracket netloc in
       let has_r := Str.contains ch_rbracket netloc in
       if (has_l && negb has_r) || (has_r && negb has_l) then Raise ValueError
       else if has_l && has_r
                 && negb (check_bracketed_host
                            (partition_before ch_rbracket
                               (partition_after ch_lbracket netloc)))
            then Raise ValueError
            else Ok (netloc, url)
     else Ok ([], url))
    (fun '(netloc, url) =>
       let '(url, fragment) :=
         match split_once ch_hash url with
         | Some (u, f) => (u, f)
         | None => (url, [])
         end in
       let '(url, query) :=
         match split_once ch_question url with
         | Some (u, q) => (u, q)
         | None => (url, [])
         end in
       if _checknetloc netloc
       then Ok (mkParseResult scheme netloc url [] query fragment)
       else Raise ValueError).

(** [_splitparams(url)] *)
Definition _splitparams (url : pystr) : pystr * pystr :=
  let cut i := (take i url, drop (S i) url) in
  if Str.contains ch_slash url then
    match Str.rfind ch_slash url with
    | Some j =>
        match Str.find_from ch_semi j url with
        | Some i => cut i
        | None => (url, [])
        end
    | None => (url, [])
    end
  else
    match Str.find ch_semi url with
    | Some i => cut i
    | None => (url, [])
    end.

Definition urlparse (url : pystr) : result ParseResult :=
  rbind (urlsplit url) (fun r =>
    let '(url, params) :=
      if bool_decide (scheme r ∈ uses_params) && Str.contains ch_semi (path r)
      then _splitparams (path r)
      else (path r, []) in
    Ok (mkParseResult (scheme r) (netloc r) url params (query r) (fragment r))).

(** ** The URL validator *)

Definition s_http : pystr := Eval cbv in lit "http".
Definition s_https : pystr := Eval cbv in lit "https".

Definition is_valid_url (url : pystr) : bool :=
  try_except
    (rbind (urlparse url) (fun p =>
       Ok (bool_decide (scheme p ∈ [s_http; s_https]) && Str.truthy (netloc p))))
    (fun _ => false).

(** ** The path resolver *)

Definition s_downloaded_file : pystr := Eval cbv in lit "downloaded_file".
Definition s_dotdot : pystr := [ch_dot; ch_dot].

Definition resolve_filepath (url out_folder : pystr) (preserve_path : bool)
  : result pystr :=
  rbind (urlparse url) (fun parsed =>
    if preserve_path then
      let path := Str.lstrip (N.eqb ch_slash) (path parsed) in
      let path :=
        if negb (Str.truthy path) || Str.endswith path [ch_slash]
        then posixpath.join path s_downloaded_file
        else path in
      let safe_path := posixpath.normpath path in
      let safe_path :=
        if Str.startswith safe_path s_dotdot
        then Str.replace s_dotdot [ch_underscore] safe_path
        else safe_path in
      Ok (posixpath.join out_folder safe_path)
    else
      let filename :=
        let b := posixpath.basename (path parsed) in
        if Str.truthy b then b else s_downloaded_file in
      Ok (posixpath.join out_folder filename)).

(** ** The fetch-and-persist worker *)

Local Open Scope M_scope.

Definition download_and_save (url out_dir : pystr)
    (preserve_path skip_existing : bool) : M unit :=
  filepath <- lift (resolve_filepath url out_dir preserve_path) ;;
  let dirpath := posixpath.dirname filepath in
  isdir <- fs_get (fun f => FS.isdir f dirpath) ;;
  (if Str.truthy dirpath && negb isdir
   then fs_do (FS.makedirs dirpath)
   else ret tt) ;;
  present <- fs_get (fun f => FS.exists_ f filepath) ;;
  if skip_existing && present then
    print (MsgSkipExists filepath)
  else
    try_catch
      (print (MsgGet url) ;;
       resp <- requests_get url ;;
       lift (raise_for_status resp) ;;
       fs_do (FS.write filepath (snd resp)) ;;
       print (MsgSaved filepath))
      (fun e => print (MsgError url e)).

(** ** The source extractors *)

(** [open(path)] for reading, and the bytes of the file. *)
Definition open_read (path : pystr) : M (list N) :=
  fun w =>
    (w, match FS.read (fs w) path with
        | Some content => Ok content
        | None => Raise OSError
        end).

(** [{line.strip() for line in f if line.strip() and is_valid_url(line.strip())}] *)
Definition urls_of_lines (lines : list pystr) : gset pystr :=
  list_to_set
    (List.filter (fun u => Str.truthy u && is_valid_url u) (List.map strip lines)).

Definition load_from_file_lines (path : pystr) : M (gset pystr) :=
  isfile <- fs_get (fun f => FS.isfile f path) ;;
  if negb isfile then
    print (MsgUrlFileNotFound path) ;;
    ret ∅
  else
    content <- open_read path ;;
    lines <- lift (text_lines content) ;;
    ret (urls_of_lines lines).

Definition load_from_stdin : M (gset pystr) :=
  lines <- read_stdin ;;
  ret (urls_of_lines lines).

(** The body of the loop over the rows of the CSV file. *)
Definition csv_row_step (column : pystr) (urls : gset pystr)
    (row : gmap pystr (option pystr)) : gset pystr :=
  let u :=
    strip match row !! column with
          | Some (Some cell) => if Str.truthy cell then cell else []
          | _ => []
          end in
  if Str.truthy u && is_valid_url u then {[u]} ∪ urls else urls.

Definition load_from_csv (path column : pystr) : M (gset pystr) :=
  let urls : gset pystr := ∅ in
  isfile <- fs_get (fun f => FS.isfile f path) ;;
  if negb isfile then
    print (MsgCsvFileNotFound path) ;;
    ret urls
  else
    content <- open_read path ;;
    let reader := csv_DictReader content in
    names <- lift (fieldnames reader) ;;
    if negb (bool_decide (column ∈ default [] names)) then
      print (MsgCsvColumnNotFound column path names) ;;
      ret urls
    else
      rows <- lift (rows reader) ;;
      ret (fold_left (csv_row_step column) rows urls).

(** [part in cur] and [cur[part]] for a dict. *)
Fixpoint dict_get (part : pystr) (items : list (pystr * json)) : option json :=
  match items with
  | [] => None
  | (k, v) :: items' => if Str.eqb k part then Some v else dict_get part items'
  end.

(** The loop of [_get_by_keypath] over the parts of the key path; [None]
    is Python's [None]. *)
Fixpoint get_by_parts (cur : json) (parts : list pystr) : option json :=
  match parts with
  | [] => Some cur
  | part :: parts' =>
      match cur with
      | JDict items =>
          match dict_get part items with
          | Some v => get_by_parts v parts'
          | None => None
          end
      | _ => None
      end
  end.

Definition _get_by_keypath (obj : json) (keypath : pystr) : option json :=
  get_by_parts obj (Str.split ch_dot keypath).

(** [_collect_urls_any(obj, acc)]: the set [acc] after the call. *)
Fixpoint _collect_urls_any (obj : json) (acc : gset pystr) : gset pystr :=
  match obj with
  | JStr s => if is_valid_url s then {[s]} ∪ acc else acc
  | JList items =>
      fold_left (fun acc v => _collect_urls_any v acc) items acc
  | JDict items =>
      fold_left (fun acc kv => _collect_urls_any (snd kv) acc) items acc
  | _ => acc
  end.

(** The loop of [load_from_json] over a list found at the key path. *)
Definition json_list_step (urls : gset pystr) (v : json) : gset pystr :=
  match v with
  | JStr s => if is_valid_url s then {[s]} ∪ urls else urls
  | _ => urls
  end.

Definition load_from_json (path : pystr) (key : option pystr) : M (gset pystr) :=
  let urls : gset pystr := ∅ in
  isfile <- fs_get (fun f => FS.isfile f path) ;;
  if negb isfile then
    print (MsgJsonFileNotFound path) ;;
    ret urls
  else
    loaded <- try_catch
                (content <- open_read path ;;
                 data <- lift (json_load content) ;;
                 ret (Some data))
                (fun e =>
                   print (MsgJsonParseFailed path e) ;;
                   ret None) ;;
    match loaded with
    | None => ret urls
    | Some data =>
        if given key then
          match _get_by_keypath data (default [] key) with
          | Some (JList items) => ret (fold_left json_list_step items urls)
          | Some (JStr s) => ret (if is_valid_url s then {[s]} ∪ urls else urls)
          | _ => ret urls
          end
        else ret (_collect_urls_any data urls)
    end.

(** [root.iter()]: the element and its descendants, in document order. *)
Fixpoint iter (e : element) : list element :=
  match e with
  | Element _ _ children => e :: concat (List.map iter children)
  end.

Definition tag (e : element) : option pystr :=
  match e with Element t _ _ => t end.

Definition text (e : element) : option pystr :=
  match e with Element _ t _ => t end.

Definition s_loc : pystr := Eval cbv in lit "loc".

(** The body of the loop of [load_from_sitemap] over the elements. *)
Definition sitemap_step (urls : gset pystr) (elem : element) : gset pystr :=
  match tag elem with
  | Some t =>
      if Str.endswith (lower t) s_loc then
        match text elem with
        | Some txt =>
            if Str.truthy txt then
              let u := strip txt in
              if is_valid_url u then {[u]} ∪ urls else urls
            else urls
        | None => urls
        end
      else urls
  | None => urls
  end.

Definition load_from_sitemap (source : pystr) : M (gset pystr) :=
  let urls : gset pystr := ∅ in
  try_catch
    (found <-
       (if is_valid_url source then
          resp <- requests_get source ;;
          lift (raise_for_status resp) ;;
          ret (Some (snd resp))
        else
          isfile <- fs_get (fun f => FS.isfile f source) ;;
          if negb isfile then
            print (MsgSitemapNotFound source) ;;
            ret None
          else
            content <- open_read source ;;
            ret (Some content)) ;;
     match found with
     | None => ret urls
     | Some content =>
         root <- lift (ET_fromstring content) ;;
         ret (fold_left sitemap_step (iter root) urls)
     end)
    (fun e =>
       print (MsgSitemapFailed source e) ;;
       ret urls).

(** ** The aggregator *)

(** [for u in args.urls: if not is_valid_url(u): print(...)] *)
Fixpoint report_invalid (us : list pystr) : M unit :=
  match us with
  | [] => ret tt
  | u :: us' =>
      (if negb (is_valid_url u) then print (MsgIgnoredInvalidUrl u) else ret tt) ;;
      report_invalid us'
  end.

Definition collect_urls (args : arguments) : M (gset pystr) :=
  let urls : gset pystr := ∅ in
  urls <-
    match args_urls args with
    | Some (u :: us) =>
        let urls := urls ∪ list_to_set (List.filter is_valid_url (u :: us)) in
        report_invalid (u :: us) ;;
        ret urls
    | _ => ret urls
    end ;;
  urls <-
    (if given (args_file args) then
       more <- load_from_file_lines (default [] (args_file args)) ;;
       ret (urls ∪ more)
     else ret urls) ;;
  urls <-
    (if args_stdin args then
       more <- load_from_stdin ;;
       ret (urls ∪ more)
     else ret urls) ;;
  urls <-
    (if given (args_csv args) then
       more <- load_from_csv (default [] (args_csv args)) (args_csv_column args) ;;
       ret (urls ∪ more)
     else ret urls) ;;
  urls <-
    (if given (args_json args) then
       more <- load_from_json (default [] (args_json args)) (args_json_key args) ;;
       ret (urls ∪ more)
     else ret urls) ;;
  urls <-
    (if given (args_sitemap args) then
       more <- load_from_sitemap (default [] (args_sitemap args)) ;;
       ret (urls ∪ more)
     else ret urls) ;;
  ret urls.

(** ** The coordinator *)

(** [executor.submit(task)]: the task runs; what it returns or raises is
    kept in the future and goes nowhere unless the future is asked for
    it.  The tasks are run one after the other, in the order they are
    submitted. *)
Definition submit {A} (task : M A) : M (result A) :=
  fun w => let '(w', r) := task w in (w', Ok r).

Fixpoint submit_all (args : arguments) (urls : list pystr)
  : M (list (pystr * result unit)) :=
  match urls with
  | [] => ret []
  | u :: urls' =>
      future <- submit (download_and_save u (args_out args)
                          (args_preserve_path args) (args_skip_existing args)) ;;
      futures <- submit_all args urls' ;;
      ret ((u, future) :: futures)
  end.

Definition main (args : arguments) : M unit :=
  urls <- collect_urls args ;;
  if bool_decide (urls = ∅) then
    print MsgNoUrlsProvided
  else
    fs_do (FS.makedirs (args_out args)) ;;
    print (MsgDownloading (size urls) (args_producers args)) ;;
    (if (args_producers args <=? 0)%Z then lift (Raise ValueError) else ret tt) ;;
    futures <- submit_all args (elements urls) ;;
    print MsgAllCompleted.

End Program.

(** * Notions the properties are stated with *)

(** Walking the components of a relative path from a directory, [depth]
    levels below it: does the walk ever go above that directory? *)
Fixpoint leaves_root (depth : nat) (comps : list pystr) : bool :=
  match comps with
  | [] => false
  | c :: cs =>
      if Str.eqb c s_dotdot then
        match depth with
        | O => true
        | S d => leaves_root d cs
        end
      else if Str.eqb c [] || Str.eqb c [ch_dot] then leaves_root depth cs
      else leaves_root (S depth) cs
  end.

(** No two dots in a row. *)
Fixpoint no_dotdot (s : pystr) : bool :=
  match s with
  | a :: (b :: _) as s' => negb ((a =? ch_dot) && (b =? ch_dot)) && no_dotdot s'
  | _ => true
  end.

(** The invariant of the loop of [normpath] on a relative path: the
    components kept so far are names, and a [..] among them can only follow
    a leading [..]. *)
Definition comps_ok (nc : list pystr) : Prop :=
  Forall (fun c => c <> [] /\ ch_slash ∉ c) nc
  /\ (head nc = Some s_dotdot \/ s_dotdot ∉ nc).

(** A relative path none of whose components is [..]. *)
Definition safe_relative (rel : pystr) : Prop :=
  Str.startswith rel [ch_slash] = false /\ s_dotdot ∉ Str.split ch_slash rel.

(** A string occurs in a JSON document: it is the document, an element
    of a list in it or a value of an object in it, at any depth. *)
Inductive occurs (s : pystr) : json -> Prop :=
  | occurs_str : occurs s (JStr s)
  | occurs_list items v : v ∈ items -> occurs s v -> occurs s (JList items)
  | occurs_dict items k v :
      (k, v) ∈ items -> occurs s v -> occurs s (JDict items).

(** [{"items":[{"link":"http://x/f1"},{"link":"not-a-url"}]}] *)
Definition scenario_B : json :=
  JDict [(lit "items",
          JList [JDict [(lit "link", JStr (lit "http://x/f1"))];
                 JDict [(lit "link", JStr (lit "not-a-url"))]])].

(** The local part of an element tag [{uri}local]: what follows the last
    closing brace. *)
Definition local_name (t : pystr) : pystr :=
  match Str.rfind ch_rbrace t with
  | Some i => drop (S i) t
  | None => t
  end.

(** [<ns:url><ns:loc>http://x/p1</ns:loc></ns:url>] and the same for
    [http://x/p2], in a [urlset] of the sitemap namespace. *)
Definition sitemap_ns : pystr :=
  Eval cbv in lit "{http://www.sitemaps.org/schemas/sitemap/0.9}".

Definition scenario_D : element :=
  Element (Some (sitemap_ns ++ lit "urlset")) (Some (lit " "))
    [Element (Some (sitemap_ns ++ lit "url")) None
       [Element (Some (sitemap_ns ++ lit "loc")) (Some (lit "http://x/p1")) []];
     Element (Some (sitemap_ns ++ lit "url")) None
       [Element (Some (sitemap_ns ++ lit "loc")) (Some (lit " http://x/p2 ")) []]].

(** An element whose tag, without its namespace and in lower case, ends
    in [loc]. *)
Definition is_loc_element {lib : PyLib} (e : element) : bool :=
  match tag e with
  | Some t => Str.endswith (lower (local_name t)) s_loc
  | None => false
  end.

(** The trimmed text of an element (empty when it has none). *)
Definition candidate (e : element) : pystr := strip (default [] (text e)).

(** Every member of a URL set has passed the validator. *)
Definition all_valid {lib : PyLib} (urls : gset pystr) : Prop :=
  forall u, u ∈ urls -> is_valid_url u = true.

(** A computation that leaves the file system and the network as they
    are, and whose result, when it returns one, satisfies [Q]. *)
Definition reads_only {A} (m : M A) (Q : A -> Prop) : Prop :=
  forall w,
    fs (fst (m w)) = fs w
    /\ http (fst (m w)) = http w
    /\ forall a, snd (m w) = Ok a -> Q a.

(** What a file system can become when only directories are made in it. *)
Definition only_adds_dirs (f f' : FS.t) : Prop :=
  FS.cwd f' = FS.cwd f
  /\ forall k,
       FS.nodes f' !! k = FS.nodes f !! k
       \/ (FS.nodes f !! k = None /\ FS.nodes f' !! k = Some FS.Dir).

(** The steps of [download_and_save], once the path is resolved: making
    the parent directory, and the block under [try]. *)
Definition ensure_parent (filepath : pystr) : M unit :=
  (let dirpath := posixpath.dirname filepath in
   isdir <- fs_get (fun f => FS.isdir f dirpath) ;;
   if Str.truthy dirpath && negb isdir
   then fs_do (FS.makedirs dirpath)
   else ret tt)%M.

Definition fetch_and_write (url filepath : pystr) : M unit :=
  (try_catch
     (print (MsgGet url) ;;
      resp <- requests_get url ;;
      lift (raise_for_status resp) ;;
      fs_do (FS.write filepath (snd resp)) ;;
      print (MsgSaved filepath))
     (fun e => print (MsgError url e)))%M.

(** The exception a GET ends in, if any: a transport error, or the
    [HTTPError] of [raise_for_status]. *)
Definition get_failure (reply : http_reply) : option exn :=
  match reply with
  | TransportError => Some RequestException
  | Response status_code content =>
      match raise_for_status (status_code, content) with
      | Raise e => Some e
      | Ok _ => None
      end
  end.

(** A library to run the scenarios with: every JSON file holds the
    document of scenario B and every XML file the sitemap of scenario D. *)
Definition lib0 : PyLib := {|
  normalize_NFKC := fun s => s;
  check_bracketed_host := fun _ => true;
  lower_nonascii := fun c => [c];
  text_lines := fun _ => Ok [];
  csv_DictReader := fun _ => DictReader (Ok None) (Ok []);
  json_load := fun _ => Ok scenario_B;
  ET_fromstring := fun _ => Ok scenario_D
|}.

(** A world to run the scenarios in: the current directory is the root,
    it holds the directory [out] with the file [out/a], a JSON file and a
    sitemap; the host name of a URL decides what its GET yields. *)
Definition fs_demo : FS.t :=
  FS.mk
    (<[ [lit "sitemap.xml"] := FS.File [60] ]>
       (<[ [lit "urls.json"] := FS.File [123] ]>
          (<[ [lit "out"; lit "a"] := FS.File [1] ]>
             (<[ [lit "out"] := FS.Dir ]> ∅))))
    [].

Definition http_demo (u : pystr) : http_reply :=
  if Str.startswith u (lit "http://moved/") then Response 301 [7]
  else if Str.startswith u (lit "http://cached/") then Response 304 [7]
  else if Str.startswith u (lit "http://missing/") then Response 404 []
  else if Str.startswith u (lit "http://down/") then TransportError
  else Response 200 [4; 2].

Definition w_demo : world := mkWorld fs_demo [] http_demo [] [].

Definition args_demo (urls : option (list pystr)) (preserve_path skip_existing : bool)
  : arguments :=
  mkArguments urls None false None (lit "url") None None None (lit "out")
    preserve_path skip_existing 6.

(** Scenario A: the literal URLs [http://x/a.txt], twice. *)
Definition scenario_A : arguments :=
  mkArguments (Some [lit "http://x/a.txt"; lit "http://x/a.txt"])
    None false None (lit "url") None None None (lit "downloaded") false false 6.

(** The last line printed is the [Error] line of the URL. *)
Definition failed_outcome (url : pystr) (w : world) : Prop :=
  exists e, last (stdout w) = Some (MsgError url e).

(** C3 as the specification words it: a response whose status is not
    2xx ends in a failed outcome. *)
Definition non_2xx_is_failed : Prop :=
  forall (lib : PyLib) (url out_dir : pystr) (preserve_path skip_existing : bool)
         (w w1 : world) (filepath : pystr) (status_code : N) (content : list N),
    resolve_filepath url out_dir preserve_path = Ok filepath ->
    ensure_parent filepath w = (w1, Ok tt) ->
    skip_existing && FS.exists_ (fs w1) filepath = false ->
    http w url = Response status_code content ->
    (status_code <? 200) || (300 <=? status_code) = true ->
    failed_outcome url
      (fst (download_and_save url out_dir preserve_path skip_existing w)).


(** A library whose parsers all fail: no file can be decoded or parsed. *)
Definition lib_failing : PyLib := {|
  normalize_NFKC := fun s => s;
  check_bracketed_host := fun _ => true;
  lower_nonascii := fun c => [c];
  text_lines := fun _ => Raise UnicodeDecodeError;
  csv_DictReader := fun _ => DictReader (Raise UnicodeDecodeError)
                               (Raise UnicodeDecodeError);
  json_load := fun _ => Raise JSONDecodeError;
  ET_fromstring := fun _ => Raise ParseError
|}.

(** Scenario C: a CSV file with the header [id,url] and the rows
    [1,http://x/a] and [2,bad]. *)
Definition scenario_C : dictreader :=
  DictReader (Ok (Some [lit "id"; lit "url"]))
    (Ok [ {[ lit "id" := Some (lit "1"); lit "url" := Some (lit "http://x/a") ]};
          {[ lit "id" := Some (lit "2"); lit "url" := Some (lit "bad") ]} ]).

(** A library for the line and CSV scenarios: every text file holds the
    lines [ http://x/a.txt ], an empty line and [nope], every CSV file the
    table of scenario C. *)
Definition lib_text : PyLib := {|
  normalize_NFKC := fun s => s;
  check_bracketed_host := fun _ => true;
  lower_nonascii := fun c => [c];
  text_lines := fun _ => Ok [lit " http://x/a.txt "; [ch_lf]; lit "nope"];
  csv_DictReader := fun _ => scenario_C;
  json_load := fun _ => Ok scenario_B;
  ET_fromstring := fun _ => Ok scenario_D
|}.

(** The world of the scenarios with a line file and a CSV file added. *)
Definition w_files : world :=
  mkWorld
    (FS.mk (<[ [lit "urls.csv"] := FS.File [105] ]>
              (<[ [lit "urls.txt"] := FS.File [104] ]> (FS.nodes fs_demo)))
       [])
    [lit "http://x/in"; lit "no"] http_demo [] [].

(** The cell of a CSV row under a column, as [row.get(column) or ""]. *)
Definition csv_cell (row : gmap pystr (option pystr)) (column : pystr) : pystr :=
  match row !! column with
  | Some (Some cell) => cell
  | _ => []
  end.

(** The [Ignored] lines of the literal URLs: one for each invalid one, in
    the order given. *)
Definition ignored_lines {lib : PyLib} (us : list pystr) : list message :=
  List.map MsgIgnoredInvalidUrl (List.filter (fun u => negb (is_valid_url u)) us).

(** A computation that issues no GET and reads nothing from the standard
    input. *)
Definition no_io {A} (m : M A) : Prop :=
  forall w, requests (fst (m w)) = requests w /\ stdin (fst (m w)) = stdin w.

(** The world a worker leaves that has issued its GET: the file system
    [f], the [Get] line and one more line, the GET in the request log. *)
Definition after_get (w : world) (url : pystr) (f : FS.t) (line : message) : world :=
  mkWorld f (stdin w) (http w) (stdout w ++ [MsgGet url; line]) (requests w ++ [url]).

(** The worker of [url], run in [w], returns normally in [w'], and the
    workers submitted after it run from there. *)
Definition worker_ends {lib : PyLib} (args : arguments) (url : pystr)
    (w w' : world) : Prop :=
  download_and_save url (args_out args) (args_preserve_path args)
    (args_skip_existing args) w = (w', Ok tt)
  /\ forall rest,
       submit_all args (url :: rest) w =
       let '(w2, futures) := submit_all args rest w' in
       (w2, rbind futures (fun fs => Ok ((url, Ok tt) :: fs))).


(** [u] is [s] without the white space around it: [s] is [u] between two
    runs of white space, and [u] neither starts nor ends with white
    space. *)
Definition trimmed_of (s u : pystr) : Prop :=
  exists a b,
    s = a ++ u ++ b
    /\ forallb is_space a = true
    /\ forallb is_space b = true
    /\ (forall x, head u = Some x -> is_space x = false)
    /\ (forall x, last u = Some x -> is_space x = false).

(** The keys of a Python [dict] are distinct: so are the keys of every
    object of a parsed document. *)
Fixpoint distinct_keys (v : json) : bool :=
  match v with
  | JList items => forallb distinct_keys items
  | JDict items =>
      bool_decide (NoDup (List.map fst items))
      && forallb (fun kv => distinct_keys (snd kv)) items
  | _ => true
  end.

(** The value a list of keys leads to from a value: each key in turn is
    the key of an item of the object reached so far. *)
Inductive leads_to : json -> list pystr -> json -> Prop :=
  | leads_here (v : json) : leads_to v [] v
  | leads_on (items : list (pystr * json)) (key : pystr) (v : json)
      (keys : list pystr) (r : json) :
      (key, v) ∈ items -> leads_to v keys r ->
      leads_to (JDict items) (key :: keys) r.

(** [{"data": {"urls": ["http://x/f1", "nope", ["http://x/deep"]], "n": 1}}] *)
Definition scenario_K : json :=
  JDict [(lit "data",
          JDict [(lit "urls",
                  JList [JStr (lit "http://x/f1"); JStr (lit "nope");
                         JList [JStr (lit "http://x/deep")]]);
                 (lit "n", JNum (lit "1"))])].

(** A library whose JSON files all hold the document of scenario K. *)
Definition lib_keyed : PyLib := {|
  normalize_NFKC := fun s => s;
  check_bracketed_host := fun _ => true;
  lower_nonascii := fun c => [c];
  text_lines := fun _ => Ok [];
  csv_DictReader := fun _ => DictReader (Ok None) (Ok []);
  json_load := fun _ => Ok scenario_K;
  ET_fromstring := fun _ => Ok scenario_D
|}.

(** [e] is an element of the document of root [root]: the root itself, or
    an element of the document of one of its children. *)
Inductive element_of (e : element) : element -> Prop :=
  | element_root : element_of e e
  | element_below (tg tx : option pystr) (children : list element) (c : element) :
      c ∈ children -> element_of e c -> element_of e (Element tg tx children).

(** The name ends in the letters [l], [o], [c], each in upper or in lower
    case. *)
Definition ends_in_loc (name : pystr) : Prop :=
  exists pre a b c,
    name = pre ++ [a; b; c]
    /\ a ∈ lit "lL" /\ b ∈ lit "oO" /\ c ∈ lit "cC".

(** What the property of the sitemap extractor needs of [str.lower]
    outside ASCII: no character is dropped, and none of the letters [l],
    [o], [c] comes of one.  (In Unicode the characters outside ASCII with
    an ASCII letter in their lower case are U+0130 and U+212A, which give
    [i] and [k].) *)
Definition lower_keeps_off_loc (lib : PyLib) : Prop :=
  forall c, 128 <= c ->
    lower_nonascii c <> [] /\ forall x, x ∈ lower_nonascii c -> x ∉ s_loc.

(** [urlsplit] cleans its argument first: leading control characters and
    spaces go, and every tab, carriage return and line feed. *)
Definition url_clean (url : pystr) : pystr :=
  Str.remove ch_lf (Str.remove ch_cr (Str.remove ch_tab
    (Str.lstrip is_c0_control_or_space url))).

(** The stages of [urlsplit] on the cleaned string: the scheme, the
    netloc, and the fragment and query. *)
Definition scheme_stage {lib : PyLib} (url : pystr) : pystr * pystr :=
  match Str.find ch_colon url with
  | Some (S i') =>
      let i := S i' in
      if is_ascii_alpha (hd 0 url) && forallb is_scheme_char (take i url)
      then (lower (take i url), drop (S i) url)
      else ([], url)
  | _ => ([], url)
  end.

Definition netloc_stage {lib : PyLib} (url : pystr) : result (pystr * pystr) :=
  if Str.eqb (take 2 url) [ch_slash; ch_slash] then
    let '(netloc, url) := _splitnetloc url 2 in
    let has_l := Str.contains ch_lbracket netloc in
    let has_r := Str.contains ch_rbracket netloc in
    if (has_l && negb has_r) || (has_r && negb has_l) then Raise ValueError
    else if has_l && has_r
              && negb (check_bracketed_host
                         (partition_before ch_rbracket
                            (partition_after ch_lbracket netloc)))
         then Raise ValueError
         else Ok (netloc, url)
  else Ok ([], url).

Definition query_stage (url : pystr) : pystr * pystr * pystr :=
  let '(url, fragment) :=
    match split_once ch_hash url with
    | Some (u, f) => (u, f)
    | None => (url, [])
    end in
  let '(url, query) :=
    match split_once ch_question url with
    | Some (u, q) => (u, q)
    | None => (url, [])
    end in
  (url, query, fragment).

(** * Properties *)

(** ** Strings *)

Lemma Str_eqb_eq s t : Str.eqb s t = true <-> s = t.
Proof. unfold Str.eqb. apply bool_decide_eq_true. Qed.

Lemma Str_eqb_neq s t : Str.eqb s t = false <-> s <> t.
Proof. unfold Str.eqb. apply bool_decide_eq_false. Qed.

Lemma startswith_app s t : Str.startswith (s ++ t) s = true.
Proof. induction s as [|a s IH]; [done|]. simpl. by rewrite N.eqb_refl. Qed.

Lemma startswith_inv s p : Str.startswith s p = true -> exists t, s = p ++ t.
Proof.
  revert s. induction p as [|a p IH]; intros s H; [by exists s|].
  destruct s as [|b s]; [discriminate|]. simpl in H.
  apply andb_true_iff in H as [Hab H]. apply N.eqb_eq in Hab as ->.
  destruct (IH _ H) as [t ->]. by exists t.
Qed.

Lemma startswith_slash_cons a s :
  Str.startswith (a :: s) [ch_slash] = false <-> a <> ch_slash.
Proof.
  change (Str.startswith (a :: s) [ch_slash]) with ((ch_slash =? a) && true).
  rewrite andb_true_r, N.eqb_neq. split; intros H; congruence.
Qed.

Lemma startswith_relative_app s t :
  s <> [] -> Str.startswith s [ch_slash] = false ->
  Str.startswith (s ++ t) [ch_slash] = false.
Proof. destruct s as [|a s]; [done|]. intros _ H. exact H. Qed.

Lemma lstrip_slash_relative s :
  Str.startswith (Str.lstrip (N.eqb ch_slash) s) [ch_slash] = false.
Proof.
  induction s as [|a s IH]; [done|]. cbn [Str.lstrip].
  destruct (N.eqb_spec ch_slash a) as [|Hne]; [exact IH|].
  apply startswith_slash_cons. congruence.
Qed.

Lemma lstrip_all (P : N -> bool) (a t : pystr) :
  forallb P a = true -> Str.lstrip P (a ++ t) = Str.lstrip P t.
Proof.
  induction a as [|x a IH]; [done|]. cbn [forallb app Str.lstrip].
  intros H. apply andb_true_iff in H as [-> H]. by apply IH.
Qed.

Lemma lstrip_stop (P : N -> bool) (t : pystr) :
  (forall x, head t = Some x -> P x = false) -> Str.lstrip P t = t.
Proof. destruct t as [|x t]; [done|]. intros H. cbn. by rewrite (H x). Qed.

Lemma lstrip_prefix (P : N -> bool) (s : pystr) :
  exists pre,
    s = pre ++ Str.lstrip P s
    /\ forallb P pre = true
    /\ forall x, head (Str.lstrip P s) = Some x -> P x = false.
Proof.
  induction s as [|a s (pre & Hs & Hp & Hh)]; [by exists []|].
  cbn [Str.lstrip]. destruct (P a) eqn:E.
  - exists (a :: pre). split; [cbn; by f_equal|]. split; [|done].
    cbn. by rewrite E.
  - exists []. split; [done|]. split; [done|]. cbn. intros x Hx. by injection Hx as <-.
Qed.

Lemma head_rev_last {A} (l : list A) : head (rev l) = last l.
Proof.
  induction l as [|a l IH] using rev_ind; [done|].
  by rewrite rev_app_distr, last_snoc.
Qed.

Lemma forallb_rev_eq {A} (P : A -> bool) (l : list A) :
  forallb P (rev l) = forallb P l.
Proof.
  induction l as [|a l IH]; [done|]. cbn. rewrite forallb_app, IH. cbn.
  rewrite andb_true_r. apply andb_comm.
Qed.

(** [strip] removes the white space around a string, and nothing else. *)
Lemma strip_trimmed (s : pystr) : trimmed_of s (strip s).
Proof.
  unfold strip. destruct (lstrip_prefix is_space s) as (a & Hs & Ha & Hh).
  set (t := Str.lstrip is_space s) in *.
  destruct (lstrip_prefix is_space (rev t)) as (b & Hr & Hb & Hl).
  assert (Ht : t = Str.rstrip is_space t ++ rev b).
  { unfold Str.rstrip. rewrite <- rev_app_distr, <- Hr. by rewrite rev_involutive. }
  exists a, (rev b). split; [by rewrite <- Ht|]. split; [done|].
  split; [by rewrite forallb_rev_eq|]. split.
  - intros x Hx. apply Hh. rewrite Ht.
    by destruct (Str.rstrip is_space t).
  - intros x Hx. apply Hl. unfold Str.rstrip in Hx.
    by rewrite <- head_rev_last, rev_involutive in Hx.
Qed.

Lemma trimmed_unique (s u : pystr) : trimmed_of s u -> u = strip s.
Proof.
  intros (a & b & -> & Ha & Hb & Hh & Hl). unfold strip.
  rewrite lstrip_all by done.
  destruct u as [|x u].
  - cbn [app]. rewrite <- (app_nil_r b), lstrip_all by done. done.
  - rewrite lstrip_stop by (cbn; intros y Hy; apply Hh; by cbn).
    unfold Str.rstrip. rewrite rev_app_distr.
    rewrite lstrip_all by by rewrite forallb_rev_eq.
    rewrite lstrip_stop; [by rewrite rev_involutive|].
    intros y Hy. apply Hl. by rewrite <- head_rev_last.
Qed.

Lemma trimmed_iff (s u : pystr) : trimmed_of s u <-> u = strip s.
Proof. split; [apply trimmed_unique|intros ->; apply strip_trimmed]. Qed.

Lemma split_nonempty sep s : Str.split sep s <> [].
Proof.
  destruct s as [|a s]; simpl; [done|].
  destruct (Str.split sep s); [done|]. by destruct (a =? sep).
Qed.

Lemma split_head_cons sep s b f fs :
  Str.split sep s = (b :: f) :: fs -> exists s', s = b :: s'.
Proof.
  destruct s as [|a s]; simpl; [discriminate|].
  destruct (Str.split sep s); [discriminate|].
  destruct (a =? sep); intros H; inversion H; subst; eauto.
Qed.

Lemma split_no_sep sep s : Forall (fun c => sep ∉ c) (Str.split sep s).
Proof.
  induction s as [|a s IH]; simpl.
  - constructor; [|constructor]. apply not_elem_of_nil.
  - destruct (Str.split sep s) as [|f fs].
    + constructor; [|constructor]. apply not_elem_of_nil.
    + inversion IH as [|? ? Hf Hfs]; subst.
      destruct (N.eqb_spec a sep).
      * constructor; [apply not_elem_of_nil|by constructor].
      * constructor; [|done]. apply not_elem_of_cons. split; [congruence|done].
Qed.

Lemma split_app_sep sep a b :
  Str.split sep (a ++ sep :: b) = Str.split sep a ++ Str.split sep b.
Proof.
  induction a as [|x a IH].
  - simpl. rewrite N.eqb_refl. pose proof (split_nonempty sep b).
    by destruct (Str.split sep b).
  - simpl. rewrite IH. pose proof (split_nonempty sep a).
    destruct (Str.split sep a) as [|f fs]; [done|]. simpl.
    by destruct (x =? sep).
Qed.

Lemma split_no_sep_id sep c : sep ∉ c -> Str.split sep c = [c].
Proof.
  induction c as [|a c IH]; intros Hc; [done|].
  apply not_elem_of_cons in Hc as [Ha Hc]. simpl. rewrite (IH Hc).
  destruct (N.eqb_spec a sep); [congruence|done].
Qed.

Lemma split_join sep comps :
  comps <> [] -> Forall (fun c => sep ∉ c) comps ->
  Str.split sep (Str.join sep comps) = comps.
Proof.
  induction comps as [|c cs IH]; intros Hne Hall; [done|].
  inversion Hall as [|? ? Hc Hcs]; subst.
  destruct cs as [|c' cs].
  - simpl. by apply split_no_sep_id.
  - change (Str.join sep (c :: c' :: cs)) with (c ++ sep :: Str.join sep (c' :: cs)).
    rewrite split_app_sep, (split_no_sep_id sep c) by done.
    simpl. f_equal. by apply IH.
Qed.

Lemma join_head sep c cs : exists t, Str.join sep (c :: cs) = c ++ t.
Proof.
  destruct cs as [|c' cs]; simpl.
  - exists []. by rewrite app_nil_r.
  - eauto.
Qed.

(** ** The path resolver *)

Lemma leaves_root_no_dotdot comps depth :
  s_dotdot ∉ comps -> leaves_root depth comps = false.
Proof.
  revert depth. induction comps as [|c cs IH]; intros depth Hn; simpl; [done|].
  apply not_elem_of_cons in Hn as [Hc Hcs].
  destruct (Str.eqb c s_dotdot) eqn:E.
  - apply Str_eqb_eq in E. congruence.
  - destruct (_ || _); auto.
Qed.

(** After [replace("..", "_")] no two dots are left in a row; and the
    result starts with a dot only when the string did, with another
    character behind it. *)
Lemma replace_from_dotdot_ok s : forall skip,
  (skip <= 1)%nat ->
  no_dotdot (Str.replace_from s_dotdot [ch_underscore] skip s) = true /\
  (skip = O -> forall r,
     Str.replace_from s_dotdot [ch_underscore] skip s = ch_dot :: r ->
     exists t, s = ch_dot :: t /\ hd 0 t <> ch_dot).
Proof.
  induction s as [|a s IH]; intros skip Hs.
  - simpl. split; [done|]. intros _ r H. discriminate.
  - destruct skip as [|[|k]]; [| |lia].
    + cbn [Str.replace_from].
      destruct (Str.startswith (a :: s) s_dotdot) eqn:E.
      * cbn [length s_dotdot Nat.sub app].
        destruct (IH 1%nat ltac:(lia)) as [IH1 _].
        split.
        -- simpl in IH1 |- *. destruct (Str.replace_from _ _ 1 s); [done|].
           simpl. exact IH1.
        -- intros _ r H. injection H as H _. discriminate H.
      * destruct (IH O ltac:(lia)) as [IH1 IH2]. split.
        -- cbn [no_dotdot].
           destruct (Str.replace_from s_dotdot [ch_underscore] 0 s) as [|b r] eqn:Er;
             [done|].
           rewrite IH1, andb_true_r.
           apply negb_true_iff, andb_false_iff.
           destruct (N.eqb_spec a ch_dot) as [->|]; [|by left]. right.
           destruct (N.eqb_spec b ch_dot) as [->|]; [|done].
           destruct (IH2 eq_refl _ eq_refl) as (t & -> & _).
           cbv in E. discriminate.
        -- intros _ r H. injection H as -> _.
           exists s. split; [done|]. intros Hd.
           destruct s as [|b s]; simpl in Hd; [discriminate|]. subst b.
           cbv in E. discriminate.
    + cbn [Str.replace_from]. destruct (IH O ltac:(lia)) as [IH1 _].
      split; [done|]. intros; discriminate.
Qed.

Lemma replace_dotdot_no_dotdot s :
  no_dotdot (Str.replace s_dotdot [ch_underscore] s) = true.
Proof. apply (replace_from_dotdot_ok s O). lia. Qed.

Lemma no_dotdot_tail a s : no_dotdot (a :: s) = true -> no_dotdot s = true.
Proof.
  destruct s as [|b s]; [done|]. cbn [no_dotdot]. intros H.
  apply andb_true_iff in H. tauto.
Qed.

Lemma no_dotdot_split s :
  no_dotdot s = true -> s_dotdot ∉ Str.split ch_slash s.
Proof.
  induction s as [|a s IH]; intros H.
  - simpl. intros Hin. apply list_elem_of_singleton in Hin. discriminate.
  - pose proof (no_dotdot_tail _ _ H) as Ht. specialize (IH Ht).
    simpl. destruct (Str.split ch_slash s) as [|f fs] eqn:E.
    + intros Hin. apply list_elem_of_singleton in Hin. discriminate.
    + destruct (N.eqb_spec a ch_slash).
      * intros Hin. apply elem_of_cons in Hin as [Hin|Hin]; [discriminate|done].
      * intros Hin. apply elem_of_cons in Hin as [Hin|Hin].
        -- unfold s_dotdot in Hin. injection Hin as <- <-.
           apply split_head_cons in E as [s' ->]. cbv in H. discriminate.
        -- apply IH. by right.
Qed.

Lemma removelast_Forall {A} (P : A -> Prop) l :
  Forall P l -> Forall P (removelast l).
Proof.
  induction 1 as [|x l Hx Hl IH]; [constructor|].
  simpl. destruct l; [constructor|]. by constructor.
Qed.

Lemma removelast_not_elem {A} (x : A) l : x ∉ l -> x ∉ removelast l.
Proof.
  induction l as [|y l IH]; [done|]. intros H.
  apply not_elem_of_cons in H as [H1 H2]. simpl.
  destruct l; [apply not_elem_of_nil|].
  apply not_elem_of_cons. auto.
Qed.

Lemma normpath_step_ok nc comp :
  comps_ok nc -> ch_slash ∉ comp -> comps_ok (posixpath.normpath_step 0 nc comp).
Proof.
  intros [Hall Hdd] Hcomp. unfold posixpath.normpath_step.
  destruct (Str.eqb comp [] || Str.eqb comp [ch_dot]) eqn:E1; [by split|].
  apply orb_false_iff in E1 as [E1 _]. apply Str_eqb_neq in E1.
  match goal with |- comps_ok (if ?b then _ else _) => destruct b eqn:E2 end.
  - split.
    + apply Forall_app. split; [done|]. by repeat constructor.
    + destruct nc as [|c nc].
      * simpl. destruct (Str.eqb comp [ch_dot; ch_dot]) eqn:E3.
        -- apply Str_eqb_eq in E3. left. by rewrite E3.
        -- apply Str_eqb_neq in E3. right. intros H.
           apply list_elem_of_singleton in H. by symmetry in H.
      * destruct Hdd as [Hdd|Hdd]; [left; exact Hdd|]. right.
        intros H. apply elem_of_app in H as [H|H]; [done|].
        apply list_elem_of_singleton in H. subst comp.
        rewrite (bool_decide_eq_false_2 (c :: nc = [])) in E2 by done.
        replace (Str.eqb [ch_dot; ch_dot] [ch_dot; ch_dot]) with true in E2
          by (symmetry; by apply Str_eqb_eq).
        rewrite andb_false_r in E2. cbn [negb orb andb] in E2.
        apply bool_decide_eq_true in E2.
        apply Hdd. apply last_Some_elem_of in E2. exact E2.
  - split; [by apply removelast_Forall|].
    destruct Hdd as [Hdd|Hdd].
    + destruct nc as [|c [|c' nc]]; simpl in *;
        [by right|right; apply not_elem_of_nil|by left].
    + right. by apply removelast_not_elem.
Qed.

Lemma fold_normpath_ok comps nc :
  comps_ok nc -> Forall (fun c => ch_slash ∉ c) comps ->
  comps_ok (fold_left (posixpath.normpath_step 0) comps nc).
Proof.
  revert nc. induction comps as [|c cs IH]; intros nc Hnc Hall; [done|].
  inversion Hall; subst. simpl. apply IH; [|done]. by apply normpath_step_ok.
Qed.

Lemma normpath_relative path :
  Str.startswith path [ch_slash] = false ->
  Str.startswith (posixpath.normpath path) [ch_slash] = false
  /\ (Str.startswith (posixpath.normpath path) s_dotdot = true
      \/ s_dotdot ∉ Str.split ch_slash (posixpath.normpath path)).
Proof.
  intros Hrel. unfold posixpath.normpath.
  destruct (Str.eqb path []).
  { split; [done|]. right. cbv. intros H.
    apply list_elem_of_singleton in H. discriminate. }
  rewrite Hrel. cbn [replicate app].
  pose proof (fold_normpath_ok (Str.split ch_slash path) []) as Hok.
  destruct Hok as [Hall Hdd].
  { split; [constructor|]. right. apply not_elem_of_nil. }
  { apply split_no_sep. }
  destruct (fold_left _ _ _) as [|c cs].
  { simpl. split; [done|]. right. cbv. intros H.
    apply list_elem_of_singleton in H. discriminate. }
  inversion Hall as [|? ? [Hc1 Hc2] Hcs]; subst.
  destruct (join_head ch_slash c cs) as [t Ht].
  destruct c as [|a c]; [done|].
  assert (Htr : Str.truthy (Str.join ch_slash ((a :: c) :: cs)) = true)
    by (by rewrite Ht).
  rewrite Htr.
  split.
  - rewrite Ht. apply startswith_slash_cons. intros ->. apply Hc2. by left.
  - destruct Hdd as [Hdd|Hdd].
    + left. rewrite Ht. simpl in Hdd.
      assert (a :: c = s_dotdot) as -> by congruence. apply startswith_app.
    + right. rewrite split_join; [done|done|].
      eapply Forall_impl; [exact Hall|]. by intros ? [_ ?].
Qed.

Lemma sanitize_safe path :
  Str.startswith path [ch_slash] = false ->
  safe_relative
    (let safe_path := posixpath.normpath path in
     if Str.startswith safe_path s_dotdot
     then Str.replace s_dotdot [ch_underscore] safe_path
     else safe_path).
Proof.
  intros Hrel. destruct (normpath_relative path Hrel) as [H1 H2]. cbv zeta.
  destruct (Str.startswith (posixpath.normpath path) s_dotdot) eqn:E.
  - split.
    + apply startswith_inv in E as [t ->]. reflexivity.
    + apply no_dotdot_split, replace_dotdot_no_dotdot.
  - destruct H2 as [H2|H2]; [congruence|]. by split.
Qed.

Lemma join_relative a b :
  Str.startswith b [ch_slash] = false ->
  posixpath.join a b = (a ++ b) \/ posixpath.join a b = (a ++ ch_slash :: b).
Proof. intros H. unfold posixpath.join. rewrite H. destruct (_ || _); auto. Qed.

Section PathResolver.

Context {lib : PyLib}.

(** C1.  In preserve-path mode every path [resolve_filepath] returns is the
    output root joined with a relative path that has no [..] component:
    it extends [out_root] and, read component by component from
    [out_root], never goes above it.  (A leading [..] left by the
    normalisation has been replaced by [_] before the join.) *)
Theorem resolve_filepath_preserve_inside_root (url out_root p : pystr) :
  resolve_filepath url out_root true = Ok p ->
  exists rel,
    p = posixpath.join out_root rel
    /\ (p = (out_root ++ rel) \/ p = (out_root ++ ch_slash :: rel))
    /\ Str.startswith rel [ch_slash] = false
    /\ (s_dotdot ∉ Str.split ch_slash rel)
    /\ leaves_root 0 (Str.split ch_slash rel) = false.
Proof.
  unfold resolve_filepath. destruct (urlparse url) as [parsed|e]; [|discriminate].
  cbn [rbind]. intros H. injection H as <-.
  set (p0 := Str.lstrip (N.eqb ch_slash) (path parsed)).
  assert (Hp0 : Str.startswith p0 [ch_slash] = false) by apply lstrip_slash_relative.
  set (p1 := if negb (Str.truthy p0) || Str.endswith p0 [ch_slash]
             then posixpath.join p0 s_downloaded_file else p0).
  assert (Hp1 : Str.startswith p1 [ch_slash] = false).
  { unfold p1.
    destruct (negb (Str.truthy p0) || Str.endswith p0 [ch_slash]) eqn:E; [|done].
    unfold posixpath.join. rewrite E.
    change (Str.startswith s_downloaded_file [ch_slash]) with false. cbv iota.
    destruct p0 as [|a p0]; [done|]. by apply startswith_relative_app. }
  destruct (sanitize_safe p1 Hp1) as [Hs1 Hs2]. cbv zeta in Hs1, Hs2.
  eexists. split; [reflexivity|].
  split; [by apply join_relative|].
  split; [done|]. split; [done|]. by apply leaves_root_no_dotdot.
Qed.

(** ** The URL validator *)

Lemma is_valid_url_iff (s : pystr) :
  is_valid_url s = true <->
  exists p, urlparse s = Ok p
            /\ (scheme p = s_http \/ scheme p = s_https)
            /\ netloc p <> [].
Proof.
  unfold is_valid_url. destruct (urlparse s) as [p|e]; cbn [rbind try_except].
  - rewrite andb_true_iff, bool_decide_eq_true. split.
    + intros [Hs Hn]. exists p. split; [done|]. split.
      * apply elem_of_cons in Hs as [Hs|Hs]; [by left|].
        apply list_elem_of_singleton in Hs. by right.
      * by destruct (netloc p).
    + intros (p' & Hp & Hs & Hn). injection Hp as <-. split.
      * destruct Hs as [-> | ->]; [by left|]. right. by left.
      * by destruct (netloc p).
  - split; [discriminate|]. intros (p & Hp & _). discriminate.
Qed.

(** C2.  [is_valid_url] is a total function to [bool]: it is [true]
    exactly when [urlparse] succeeds with scheme [http] or [https] and a
    non-empty netloc, and [false] whenever [urlparse] raises. *)
Theorem is_valid_url_spec :
  (forall s : pystr,
     is_valid_url s = true <->
     exists p, urlparse s = Ok p
               /\ (scheme p = s_http \/ scheme p = s_https)
               /\ netloc p <> [])
  /\ (forall (s : pystr) e, urlparse s = Raise e -> is_valid_url s = false)
  /\ is_valid_url (lit "ftp://x.com") = false
  /\ is_valid_url (lit "http://") = false
  /\ is_valid_url (lit "https://a.b/c") = true.
Proof.
  split; [exact is_valid_url_iff|].
  split; [|by vm_compute].
  intros s e H. unfold is_valid_url. by rewrite H.
Qed.

(** The parser puts the scheme in lower case before the comparison, and
    an unmatched bracket in the netloc is one of its failures. *)
Example is_valid_url_parser_cases :
  is_valid_url (lit "HTTP://x.com") = true
  /\ urlparse (lit "http://[::1/x") = Raise ValueError
  /\ is_valid_url (lit "http://[::1/x") = false.
Proof. by vm_compute. Qed.

End PathResolver.

(** ** The JSON extractor *)

Lemma json_ind (P : json -> Prop) :
  P JNull -> (forall b, P (JBool b)) -> (forall n, P (JNum n)) ->
  (forall s, P (JStr s)) ->
  (forall items, Forall P items -> P (JList items)) ->
  (forall items, Forall (fun kv => P (snd kv)) items -> P (JDict items)) ->
  forall j, P j.
Proof.
  intros Hnull Hbool Hnum Hstr Hlist Hdict.
  fix IH 1. intros [ |b|n|s|items|items].
  - exact Hnull.
  - apply Hbool.
  - apply Hnum.
  - apply Hstr.
  - apply Hlist. induction items as [|v items IHitems]; constructor; auto.
  - apply Hdict. induction items as [|[k v] items IHitems]; constructor; auto.
Qed.

Section JsonExtractor.

Context {lib : PyLib}.

Lemma fold_collect_spec {A} (get : A -> json) (items : list A) :
  Forall (fun x => forall acc s,
            s ∈ _collect_urls_any (get x) acc <->
            s ∈ acc \/ (occurs s (get x) /\ is_valid_url s = true)) items ->
  forall acc s,
    s ∈ fold_left (fun acc x => _collect_urls_any (get x) acc) items acc <->
    s ∈ acc \/ exists x, x ∈ items /\ occurs s (get x) /\ is_valid_url s = true.
Proof.
  induction 1 as [|x items Hx Hitems IH]; intros acc s; simpl.
  - split; [by left|]. intros [H|(x & Hin & _)]; [done|]. by apply elem_of_nil in Hin.
  - rewrite IH, Hx. split.
    + intros [[H|H]|(y & Hin & H)].
      * by left.
      * right. exists x. split; [by left|done].
      * right. exists y. split; [by right|done].
    + intros [H|(y & Hin & H)].
      * left. by left.
      * apply elem_of_cons in Hin as [->|Hin].
        -- left. by right.
        -- right. by exists y.
Qed.

Lemma collect_urls_any_spec (doc : json) :
  forall acc s,
    s ∈ _collect_urls_any doc acc <->
    s ∈ acc \/ (occurs s doc /\ is_valid_url s = true).
Proof.
  induction doc as [ |b|n|u|items IH|items IH] using json_ind; intros acc s.
  - simpl. split; [by left|]. intros [H|[H _]]; [done|inversion H].
  - simpl. split; [by left|]. intros [H|[H _]]; [done|inversion H].
  - simpl. split; [by left|]. intros [H|[H _]]; [done|inversion H].
  - simpl. destruct (is_valid_url u) eqn:E.
    + rewrite elem_of_union, elem_of_singleton. split.
      * intros [->|H]; [right; split; [constructor|done]|by left].
      * intros [H|[H _]]; [by right|]. inversion H; subst. by left.
    + split; [by left|]. intros [H|[H Hv]]; [done|]. inversion H; subst. congruence.
  - change (_collect_urls_any (JList items) acc)
      with (fold_left (fun acc v => _collect_urls_any v acc) items acc).
    rewrite (fold_collect_spec (fun v => v) items IH). split.
    + intros [H|(v & Hin & Ho & Hv)]; [by left|]. right. split; [|done].
      by apply occurs_list with v.
    + intros [H|[Ho Hv]]; [by left|]. right. inversion Ho; subst. eauto.
  - change (_collect_urls_any (JDict items) acc)
      with (fold_left (fun acc kv => _collect_urls_any (snd kv) acc) items acc).
    rewrite (fold_collect_spec snd items IH). split.
    + intros [H|([k v] & Hin & Ho & Hv)]; [by left|]. right. split; [|done].
      by apply occurs_dict with k v.
    + intros [H|[Ho Hv]]; [by left|]. right. inversion Ho; subst.
      exists (k, v). eauto.
Qed.

Lemma load_from_json_no_key (path : pystr) (key : option pystr) (w : world)
    (content : list N) (doc : json) :
  given key = false ->
  FS.read (fs w) path = Some content ->
  json_load content = Ok doc ->
  load_from_json path key w = (w, Ok (_collect_urls_any doc ∅)).
Proof.
  intros Hkey Hread Hload.
  unfold load_from_json, bind, fs_get, try_catch, open_read, lift, ret, FS.isfile.
  rewrite Hread. cbn. rewrite Hread, Hload. cbn. by rewrite Hkey.
Qed.

Example collect_scenario_B (s : pystr) :
  s ∈ _collect_urls_any scenario_B ∅ <-> s = lit "http://x/f1".
Proof.
  assert (Hv : is_valid_url (lit "http://x/f1") = true) by by vm_compute.
  assert (Hn : is_valid_url (lit "not-a-url") = false) by by vm_compute.
  unfold scenario_B. cbn [_collect_urls_any fold_left snd].
  rewrite Hv, Hn. rewrite elem_of_union, elem_of_singleton. split.
  - intros [H|H]; [done|by apply not_elem_of_empty in H].
  - by left.
Qed.

(** C7.  Without a key path the JSON extractor walks the whole document:
    the set it returns holds exactly the strings that occur in the
    document, at any depth, and are valid URLs. *)
Theorem load_from_json_tree_walk (path : pystr) (key : option pystr)
    (w : world) (content : list N) (doc : json) :
  given key = false ->
  FS.read (fs w) path = Some content ->
  json_load content = Ok doc ->
  exists urls : gset pystr,
    load_from_json path key w = (w, Ok urls)
    /\ urls = _collect_urls_any doc ∅
    /\ forall s, s ∈ urls <-> occurs s doc /\ is_valid_url s = true.
Proof.
  intros Hkey Hread Hload.
  exists (_collect_urls_any doc ∅). split; [|split; [done|]].
  - by apply load_from_json_no_key with content.
  - intros s. rewrite collect_urls_any_spec. split.
    + intros [H|H]; [by apply not_elem_of_empty in H|done].
    + by right.
Qed.

End JsonExtractor.

(** ** The sitemap extractor *)

Lemma rfind_Some_split c s i :
  Str.rfind c s = Some i -> s = take i s ++ c :: drop (S i) s.
Proof.
  revert i. induction s as [|a s IH]; intros i; simpl; [discriminate|].
  destruct (Str.rfind c s) as [j|] eqn:E.
  - intros H. injection H as <-. simpl. f_equal. by apply IH.
  - destruct (N.eqb_spec a c) as [->|]; [|discriminate].
    intros H. injection H as <-. by rewrite drop_0.
Qed.

Lemma startswith_col_brace (r a : pystr) :
  Str.startswith (r ++ ch_rbrace :: a) (rev s_loc) = Str.startswith r (rev s_loc).
Proof.
  change (rev s_loc) with [99; 111; 108].
  destruct r as [|x [|y [|z r]]]; simpl; try reflexivity;
    repeat match goal with |- context [?u =? ?v] => destruct (u =? v) end;
    reflexivity.
Qed.

Lemma element_ind (P : element -> Prop) :
  (forall tg tx children, Forall P children -> P (Element tg tx children)) ->
  forall e, P e.
Proof.
  intros H. fix IH 1. intros [tg tx children]. apply H.
  induction children as [|c children IHc]; constructor; auto.
Qed.

Lemma iter_spec (root e : element) : e ∈ iter root <-> element_of e root.
Proof.
  split.
  - revert e. induction root as [tg tx children IH] using element_ind.
    intros e. cbn [iter]. intros H. apply elem_of_cons in H as [->|H]; [constructor|].
    apply list_elem_of_In, in_concat in H as (l & Hl & He).
    apply in_map_iff in Hl as (c & <- & Hc).
    apply list_elem_of_In in Hc, He.
    apply (element_below _ _ _ _ c); [done|].
    rewrite Forall_forall in IH. by apply IH.
  - induction 1 as [|tg tx children c Hc _ IH].
    + destruct e. cbn [iter]. by left.
    + cbn [iter]. right. apply list_elem_of_In, in_concat.
      exists (iter c). split; [|by apply list_elem_of_In].
      apply in_map. by apply list_elem_of_In.
Qed.

Section SitemapExtractor.

Context {lib : PyLib}.

Lemma lower_app (a b : pystr) : lower (a ++ b) = lower a ++ lower b.
Proof. unfold lower. by rewrite List.map_app, concat_app. Qed.

Lemma endswith_loc_local (t : pystr) :
  Str.endswith (lower t) s_loc = Str.endswith (lower (local_name t)) s_loc.
Proof.
  unfold local_name. destruct (Str.rfind ch_rbrace t) as [i|] eqn:E; [|done].
  apply rfind_Some_split in E. rewrite E at 1.
  rewrite lower_app.
  change (lower (ch_rbrace :: drop (S i) t))
    with (ch_rbrace :: lower (drop (S i) t)).
  unfold Str.endswith. rewrite rev_app_distr. simpl rev at 1.
  rewrite <- app_assoc. apply startswith_col_brace.
Qed.

Lemma sitemap_step_spec (urls : gset pystr) (e : element) (u : pystr) :
  u ∈ sitemap_step urls e <->
  u ∈ urls \/ (is_loc_element e = true /\ u = candidate e /\ is_valid_url u = true).
Proof.
  assert (Hempty : is_valid_url [] = false) by by vm_compute.
  unfold sitemap_step, is_loc_element, candidate.
  destruct (tag e) as [t|]; [|split; [by left|by intros [?|[? _]]]].
  rewrite <- endswith_loc_local.
  destruct (Str.endswith (lower t) s_loc); [|split; [by left|by intros [?|[? _]]]].
  destruct (text e) as [txt|]; cbn [from_option id].
  - destruct txt as [|a txt]; cbn [Str.truthy].
    + split; [by left|]. intros [?|(_ & -> & H)]; [done|].
      change (is_valid_url [] = true) in H. congruence.
    + destruct (is_valid_url (strip (a :: txt))) eqn:Ev.
      * rewrite elem_of_union, elem_of_singleton. split.
        -- intros [->|?]; [by right|by left].
        -- intros [?|(_ & -> & _)]; [by right|by left].
      * split; [by left|]. intros [?|(_ & -> & H)]; [done|congruence].
  - split; [by left|]. intros [?|(_ & -> & H)]; [done|].
    change (is_valid_url [] = true) in H. congruence.
Qed.

Lemma fold_sitemap_spec (es : list element) :
  forall (urls : gset pystr) (u : pystr),
    u ∈ fold_left sitemap_step es urls <->
    u ∈ urls \/ exists e, e ∈ es /\ is_loc_element e = true
                          /\ u = candidate e /\ is_valid_url u = true.
Proof.
  induction es as [|e es IH]; intros urls u; simpl.
  - split; [by left|]. intros [?|(e & Hin & _)]; [done|]. by apply elem_of_nil in Hin.
  - rewrite IH, sitemap_step_spec. split.
    + intros [[?|?]|(e' & Hin & ?)].
      * by left.
      * right. exists e. split; [by left|done].
      * right. exists e'. split; [by right|done].
    + intros [?|(e' & Hin & H)]; [left; by left|].
      apply elem_of_cons in Hin as [->|Hin]; [left; by right|].
      right. by exists e'.
Qed.

Lemma load_from_sitemap_file (source : pystr) (w : world)
    (content : list N) (root : element) :
  is_valid_url source = false ->
  FS.read (fs w) source = Some content ->
  ET_fromstring content = Ok root ->
  load_from_sitemap source w = (w, Ok (fold_left sitemap_step (iter root) ∅)).
Proof.
  intros Hsrc Hread Hparse.
  unfold load_from_sitemap, try_catch, bind, fs_get, open_read, lift, ret, FS.isfile.
  rewrite Hsrc. cbn. rewrite Hread. cbn. rewrite Hread. cbn. by rewrite Hparse.
Qed.

Example sitemap_scenario_D (u : pystr) :
  u ∈ fold_left sitemap_step (iter scenario_D) ∅ <->
  u = lit "http://x/p1" \/ u = lit "http://x/p2".
Proof.
  assert (H1 : is_valid_url (lit "http://x/p1") = true) by by vm_compute.
  assert (H2 : is_valid_url (lit "http://x/p2") = true) by by vm_compute.
  assert (H0 : is_valid_url [] = false) by by vm_compute.
  assert (E : fold_left sitemap_step (iter scenario_D) ∅
              = {[lit "http://x/p2"]} ∪ ({[lit "http://x/p1"]} ∪ ∅)).
  { unfold scenario_D. cbn [iter List.map concat app fold_left].
    unfold sitemap_step at 5. cbn [tag text].
    unfold sitemap_step at 4. cbn [tag text].
    unfold sitemap_step at 3. cbn [tag text].
    unfold sitemap_step at 2. cbn [tag text].
    unfold sitemap_step. cbn [tag text].
    vm_compute lower. vm_compute Str.endswith. cbv iota.
    vm_compute strip. cbn [Str.truthy].
    change [104; 116; 116; 112; 58; 47; 47; 120; 47; 112; 49] with (lit "http://x/p1").
    change [104; 116; 116; 112; 58; 47; 47; 120; 47; 112; 50] with (lit "http://x/p2").
    by rewrite H1, H2. }
  rewrite E, !elem_of_union, !elem_of_singleton. split.
  - intros [->|[->|H]]; [by right|by left|by apply not_elem_of_empty in H].
  - intros [->| ->]; [right; by left|by left].
Qed.

Lemma load_from_sitemap_url (source : pystr) (w : world)
    (status_code : N) (content : list N) (root : element) :
  is_valid_url source = true ->
  http w source = Response status_code content ->
  raise_for_status (status_code, content) = Ok tt ->
  ET_fromstring content = Ok root ->
  load_from_sitemap source w =
    (mkWorld (fs w) (stdin w) (http w) (stdout w) (requests w ++ [source]),
     Ok (fold_left sitemap_step (iter root) ∅)).
Proof.
  intros Hsrc Hget Hst Hparse.
  unfold load_from_sitemap, try_catch, bind, requests_get, lift, ret.
  rewrite Hsrc, Hget. cbn [snd]. rewrite Hst. cbn. by rewrite Hparse.
Qed.

(** The comparison without case. *)

Hypothesis Hlower : lower_keeps_off_loc lib.

Lemma lower_snoc (t : pystr) (z : N) : lower (t ++ [z]) = lower t ++ lower_char z.
Proof. rewrite lower_app. unfold lower at 2. cbn. by rewrite app_nil_r. Qed.

Lemma lower_char_letter (z x X : N) :
  x ∈ s_loc -> X = x - 32 ->
  lower_char z = [x] <-> z = x \/ z = X.
Proof.
  intros Hx ->. unfold lower_char. destruct (N.ltb_spec z 128) as [Hz|Hz].
  - assert (Hc : x = 108 \/ x = 111 \/ x = 99).
    { vm_compute in Hx. repeat (apply elem_of_cons in Hx as [Hx|Hx]; [auto|]).
      by apply elem_of_nil in Hx. }
    unfold is_ascii_upper.
    destruct (N.leb_spec 65 z) as [L1|L1], (N.leb_spec z 90) as [L2|L2];
      cbn [andb]; split.
    all: try (intros E; injection E as E; lia).
    all: intros [E|E]; f_equal; lia.
  - destruct (Hlower z Hz) as [_ Hn]. split.
    + intros H. exfalso. apply (Hn x); [|done]. rewrite H. by left.
    + assert (x < 128).
      { vm_compute in Hx. repeat (apply elem_of_cons in Hx as [->|Hx]; [done|]).
        by apply elem_of_nil in Hx. }
      lia.
Qed.

Lemma startswith_rev_lower (t : pystr) (x : N) (p : pystr) :
  x ∈ s_loc ->
  Str.startswith (rev (lower t)) (x :: p) = true <->
  exists t' z, t = t' ++ [z] /\ lower_char z = [x]
               /\ Str.startswith (rev (lower t')) p = true.
Proof.
  intros Hx. destruct t as [|z t'] using rev_ind.
  - split; [discriminate|]. intros (t' & z & H & _). by destruct t'.
  - clear IHt'. rewrite lower_snoc, rev_app_distr.
    assert (Hinj : forall t0 z0, t' ++ [z] = t0 ++ [z0] -> t0 = t' /\ z0 = z).
    { intros t0 z0 H. apply app_inj_tail in H as [-> ->]. done. }
    unfold lower_char at 1. destruct (N.ltb_spec z 128) as [Hz|Hz].
    + set (y := if is_ascii_upper z then z + 32 else z).
      assert (Hy : lower_char z = [y]).
      { unfold lower_char. destruct (N.ltb_spec z 128); [done|lia]. }
      cbn [rev app Str.startswith]. rewrite andb_true_iff, N.eqb_eq. split.
      * intros [-> H]. by exists t', z.
      * intros (t0 & z0 & H & Hl & Hs). apply Hinj in H as [-> ->].
        rewrite Hy in Hl. by injection Hl as ->.
    + destruct (Hlower z Hz) as [Hne Hn].
      assert (Hl : lower_char z = lower_nonascii z).
      { unfold lower_char. destruct (N.ltb_spec z 128); [lia|done]. }
      destruct (lower_nonascii z) as [|q0 q] eqn:Eq using rev_ind; [done|].
      clear IHq. rewrite rev_app_distr. cbn [rev app Str.startswith].
      destruct (N.eqb_spec x q0) as [->|Hne'].
      * exfalso. apply (Hn q0); [|done]. apply elem_of_app. right. by left.
      * split; [discriminate|].
        intros (t0 & z0 & H & Hl0 & _). apply Hinj in H as [-> ->].
        rewrite Hl in Hl0. exfalso. apply (Hn x); [|done].
        rewrite Hl0. by left.
Qed.

(** The test of the extractor on a name is the comparison without case. *)
Lemma endswith_loc_spec (t : pystr) :
  Str.endswith (lower t) s_loc = true <-> ends_in_loc t.
Proof.
  unfold Str.endswith, ends_in_loc.
  change (rev s_loc) with [99; 111; 108].
  assert (H99 : (99 : N) ∈ s_loc) by (right; right; by left).
  assert (H111 : (111 : N) ∈ s_loc) by (right; by left).
  assert (H108 : (108 : N) ∈ s_loc) by by left.
  rewrite (startswith_rev_lower t 99 _ H99). split.
  - intros (t1 & c & -> & Hc & H).
    apply (startswith_rev_lower t1 111 _ H111) in H as (t2 & b & -> & Hb & H).
    apply (startswith_rev_lower t2 108 _ H108) in H as (t3 & a & -> & Ha & _).
    exists t3, a, b, c. split; [by rewrite <- !app_assoc|].
    apply (lower_char_letter _ _ 76 H108 eq_refl) in Ha.
    apply (lower_char_letter _ _ 79 H111 eq_refl) in Hb.
    apply (lower_char_letter _ _ 67 H99 eq_refl) in Hc.
    repeat split.
    + destruct Ha as [-> | ->]; [by left|right; by left].
    + destruct Hb as [-> | ->]; [by left|right; by left].
    + destruct Hc as [-> | ->]; [by left|right; by left].
  - intros (pre & a & b & c & -> & Ha & Hb & Hc).
    assert (Ha' : a = 108 \/ a = 76).
    { vm_compute in Ha. repeat (apply elem_of_cons in Ha as [Ha|Ha]; [auto|]).
      by apply elem_of_nil in Ha. }
    assert (Hb' : b = 111 \/ b = 79).
    { vm_compute in Hb. repeat (apply elem_of_cons in Hb as [Hb|Hb]; [auto|]).
      by apply elem_of_nil in Hb. }
    assert (Hc' : c = 99 \/ c = 67).
    { vm_compute in Hc. repeat (apply elem_of_cons in Hc as [Hc|Hc]; [auto|]).
      by apply elem_of_nil in Hc. }
    exists (pre ++ [a; b]), c. split; [by rewrite <- app_assoc|].
    split; [by apply (lower_char_letter _ _ 67 H99 eq_refl)|].
    apply (startswith_rev_lower _ 111 _ H111).
    exists (pre ++ [a]), b. split; [by rewrite <- app_assoc|].
    split; [by apply (lower_char_letter _ _ 79 H111 eq_refl)|].
    apply (startswith_rev_lower _ 108 _ H108).
    exists pre, a. split; [done|].
    split; [by apply (lower_char_letter _ _ 76 H108 eq_refl)|done].
Qed.

Lemma loc_element_spec (e : element) (u : pystr) :
  is_loc_element e = true /\ u = candidate e /\ is_valid_url u = true <->
  exists t txt,
    tag e = Some t /\ ends_in_loc (local_name t)
    /\ text e = Some txt /\ trimmed_of txt u /\ is_valid_url u = true.
Proof.
  assert (Hempty : is_valid_url [] = false) by by vm_compute.
  unfold is_loc_element, candidate. split.
  - intros (Hl & -> & Hv). destruct (tag e) as [t|]; [|discriminate].
    apply endswith_loc_spec in Hl. exists t.
    destruct (text e) as [txt|]; cbn [from_option id] in *.
    + exists txt. repeat split; try done. apply strip_trimmed.
    + change (strip []) with (@nil N) in Hv. congruence.
  - intros (t & txt & -> & Hl & -> & Ht & Hv). cbn [from_option id].
    split; [by apply endswith_loc_spec|]. split; [by apply trimmed_unique|done].
Qed.

(** C8.  From a sitemap document, read from a file or fetched, the
    extractor keeps exactly the strings that are valid URLs and are the
    text, with the white space around it taken off, of an element of the
    document (the root or any descendant) whose tag, without its
    namespace, ends in [loc] in any mix of upper and lower case. *)
Theorem load_from_sitemap_loc_elements (source : pystr) (w : world)
    (content : list N) (root : element) :
  (is_valid_url source = false /\ FS.read (fs w) source = Some content)
  \/ (is_valid_url source = true
      /\ exists status_code,
           http w source = Response status_code content
           /\ raise_for_status (status_code, content) = Ok tt) ->
  ET_fromstring content = Ok root ->
  exists urls : gset pystr,
    snd (load_from_sitemap source w) = Ok urls
    /\ stdout (fst (load_from_sitemap source w)) = stdout w
    /\ forall u,
         u ∈ urls <->
         exists e t txt,
           element_of e root
           /\ tag e = Some t /\ ends_in_loc (local_name t)
           /\ text e = Some txt /\ trimmed_of txt u
           /\ is_valid_url u = true.
Proof.
  intros Hsrc Hparse. exists (fold_left sitemap_step (iter root) ∅).
  assert (E : snd (load_from_sitemap source w)
              = Ok (fold_left sitemap_step (iter root) ∅)
              /\ stdout (fst (load_from_sitemap source w)) = stdout w).
  { destruct Hsrc as [[Hv Hread]|(Hv & status_code & Hget & Hst)].
    - by rewrite (load_from_sitemap_file source w content root).
    - by rewrite (load_from_sitemap_url source w status_code content root). }
  destruct E as [E1 E2]. split; [done|]. split; [done|].
  intros u. rewrite fold_sitemap_spec. split.
  - intros [H|(e & Hin & H)]; [by apply not_elem_of_empty in H|].
    apply loc_element_spec in H as (t & txt & H). exists e, t, txt.
    split; [by apply iter_spec|done].
  - intros (e & t & txt & Hin & H). right. exists e.
    split; [by apply iter_spec|]. apply loc_element_spec. by exists t, txt.
Qed.

End SitemapExtractor.

(** A library that leaves the characters outside ASCII as they are. *)
Lemma lower_keeps_off_loc_ascii_id (lib : PyLib) :
  (forall c, lower_nonascii c = [c]) -> lower_keeps_off_loc lib.
Proof.
  intros H c Hc. rewrite H. split; [done|].
  intros x Hx. apply list_elem_of_singleton in Hx as ->.
  intros Hin. vm_compute in Hin.
  repeat (apply elem_of_cons in Hin as [->|Hin]; [lia|]).
  by apply elem_of_nil in Hin.
Qed.

(** ** Computations that only read *)

Lemma reads_only_ret {A} (a : A) (Q : A -> Prop) : Q a -> reads_only (ret a) Q.
Proof. intros H w. cbn. repeat split. intros a' E. by injection E as <-. Qed.

Lemma reads_only_bind {A B} (m : M A) (k : A -> M B) (P : A -> Prop)
    (Q : B -> Prop) :
  reads_only m P -> (forall a, P a -> reads_only (k a) Q) ->
  reads_only (bind m k) Q.
Proof.
  intros Hm Hk w. unfold bind. destruct (Hm w) as (Hf & Hh & Hr).
  destruct (m w) as [w1 [a|e]]; cbn in *.
  - destruct (Hk a (Hr a eq_refl) w1) as (Hf' & Hh' & Hr').
    rewrite Hf', Hh'. done.
  - repeat split; try done.
Qed.

Lemma reads_only_try_catch {A} (body : M A) (handler : exn -> M A)
    (Q : A -> Prop) :
  reads_only body Q -> (forall e, reads_only (handler e) Q) ->
  reads_only (try_catch body handler) Q.
Proof.
  intros Hb Hh w. unfold try_catch. destruct (Hb w) as (Hf & Hn & Hr).
  destruct (body w) as [w1 [a|e]]; cbn in *; [done|].
  destruct (Hh e w1) as (Hf' & Hn' & Hr'). rewrite Hf', Hn'. done.
Qed.

Lemma reads_only_weaken {A} (m : M A) (P Q : A -> Prop) :
  reads_only m P -> (forall a, P a -> Q a) -> reads_only m Q.
Proof.
  intros Hm HPQ w. destruct (Hm w) as (Hf & Hn & Hr). repeat split; auto.
Qed.

Lemma reads_only_lift {A} (r : result A) (Q : A -> Prop) :
  (forall a, r = Ok a -> Q a) -> reads_only (lift r) Q.
Proof. intros H w. cbn. repeat split. exact H. Qed.

Lemma reads_only_print (m : message) (Q : unit -> Prop) :
  Q tt -> reads_only (print m) Q.
Proof. intros H w. cbn. repeat split. by intros []. Qed.

Lemma reads_only_fs_get {A} (q : FS.t -> A) (Q : A -> Prop) :
  (forall f, Q (q f)) -> reads_only (fs_get q) Q.
Proof. intros H w. cbn. repeat split. intros a E. injection E as <-. apply H. Qed.

Lemma reads_only_read_stdin (Q : list pystr -> Prop) :
  (forall lines, Q lines) -> reads_only read_stdin Q.
Proof. intros H w. cbn. repeat split. intros a _. apply H. Qed.

Lemma reads_only_requests_get (url : pystr) (Q : N * list N -> Prop) :
  (forall resp, Q resp) -> reads_only (requests_get url) Q.
Proof. intros H w. cbn. repeat split. intros a _. apply H. Qed.

Create HintDb reads_only.
#[local] Hint Resolve reads_only_ret reads_only_lift reads_only_print
  reads_only_fs_get reads_only_read_stdin reads_only_requests_get : reads_only.

(** One step through a computation: a bind, a handler, a test. *)
Ltac reads_only_step :=
  lazymatch goal with
  | |- reads_only (bind _ _) _ =>
      eapply reads_only_bind with (P := fun _ => True); [|intros ? _]
  | |- reads_only (try_catch _ _) _ =>
      apply reads_only_try_catch; [|intros ?]
  | |- reads_only (if ?c then _ else _) _ => destruct c
  | |- reads_only (match ?x with _ => _ end) _ => destruct x
  | |- reads_only _ _ => solve [auto 6 with reads_only]
  end.

Section Aggregator.

Context {lib : PyLib}.

Lemma all_valid_empty : all_valid ∅.
Proof. intros u H. by apply not_elem_of_empty in H. Qed.

Lemma all_valid_union (a b : gset pystr) :
  all_valid a -> all_valid b -> all_valid (a ∪ b).
Proof. intros Ha Hb u H. apply elem_of_union in H as [H|H]; auto. Qed.

Lemma all_valid_add (u : pystr) (urls : gset pystr) :
  is_valid_url u = true -> all_valid urls -> all_valid ({[u]} ∪ urls).
Proof.
  intros Hu Hurls v H. apply elem_of_union in H as [H|H]; [|auto].
  apply elem_of_singleton in H. by subst.
Qed.

Lemma all_valid_add_if (u : pystr) (urls : gset pystr) :
  all_valid urls -> all_valid (if is_valid_url u then {[u]} ∪ urls else urls).
Proof.
  intros H. destruct (is_valid_url u) eqn:E; [by apply all_valid_add|done].
Qed.

Lemma all_valid_filter (P : pystr -> bool) (l : list pystr) :
  (forall u, P u = true -> is_valid_url u = true) ->
  all_valid (list_to_set (List.filter P l)).
Proof.
  intros HP u H. apply elem_of_list_to_set, list_elem_of_In, filter_In in H.
  apply HP. tauto.
Qed.

Lemma urls_of_lines_valid (lines : list pystr) : all_valid (urls_of_lines lines).
Proof.
  apply all_valid_filter. intros u H. apply andb_true_iff in H. tauto.
Qed.

Lemma csv_rows_valid (column : pystr)
    (rs : list (gmap pystr (option pystr))) (urls : gset pystr) :
  all_valid urls -> all_valid (fold_left (csv_row_step column) rs urls).
Proof.
  revert urls. induction rs as [|row rs IH]; intros urls H; [done|].
  simpl. apply IH. unfold csv_row_step.
  match goal with |- all_valid (if ?c then _ else _) => destruct c eqn:E end;
    [|done].
  apply andb_true_iff in E as [_ E]. by apply all_valid_add.
Qed.

Lemma json_list_valid (items : list json) (urls : gset pystr) :
  all_valid urls -> all_valid (fold_left json_list_step items urls).
Proof.
  revert urls. induction items as [|v items IH]; intros urls H; [done|].
  simpl. apply IH. destruct v; simpl; try done.
  destruct (is_valid_url s) eqn:E; [by apply all_valid_add|done].
Qed.

Lemma collect_urls_any_valid (doc : json) (urls : gset pystr) :
  all_valid urls -> all_valid (_collect_urls_any doc urls).
Proof.
  intros H u Hu. apply collect_urls_any_spec in Hu as [Hu|[_ Hu]]; auto.
Qed.

Lemma sitemap_valid (es : list element) (urls : gset pystr) :
  all_valid urls -> all_valid (fold_left sitemap_step es urls).
Proof.
  intros H u Hu. apply fold_sitemap_spec in Hu as [Hu|(e & _ & _ & _ & Hu)]; auto.
Qed.

Lemma reads_only_open_read (path : pystr) (Q : list N -> Prop) :
  (forall content, Q content) -> reads_only (open_read path) Q.
Proof. intros H w. cbn. repeat split. intros a _. apply H. Qed.

#[local] Hint Resolve reads_only_open_read all_valid_empty all_valid_union
  all_valid_add all_valid_add_if urls_of_lines_valid csv_rows_valid json_list_valid
  collect_urls_any_valid sitemap_valid : reads_only.

Lemma load_from_file_lines_ok (path : pystr) :
  reads_only (load_from_file_lines path) all_valid.
Proof.
  unfold load_from_file_lines. repeat reads_only_step.
Qed.

Lemma load_from_stdin_ok : reads_only load_from_stdin all_valid.
Proof.
  unfold load_from_stdin. repeat reads_only_step.
Qed.

Lemma load_from_csv_ok (path column : pystr) :
  reads_only (load_from_csv path column) all_valid.
Proof.
  unfold load_from_csv. repeat reads_only_step.
Qed.

Lemma load_from_json_ok (path : pystr) (key : option pystr) :
  reads_only (load_from_json path key) all_valid.
Proof.
  unfold load_from_json. repeat reads_only_step.
Qed.

Lemma load_from_sitemap_ok (source : pystr) :
  reads_only (load_from_sitemap source) all_valid.
Proof.
  unfold load_from_sitemap. repeat reads_only_step.
Qed.

Lemma report_invalid_ok (us : list pystr) :
  reads_only (report_invalid us) (fun _ => True).
Proof.
  induction us as [|u us IH]; simpl; [by apply reads_only_ret|].
  eapply reads_only_bind with (P := fun _ => True); [|by intros].
  destruct (negb (is_valid_url u)); auto with reads_only.
Qed.

(** One source of [collect_urls]: [if given: urls |= extractor(...)]. *)
Lemma source_ok (active : bool) (extractor : M (gset pystr))
    (urls : gset pystr) :
  reads_only extractor all_valid -> all_valid urls ->
  reads_only
    (if active then bind extractor (fun more => ret (urls ∪ more)) else ret urls)
    all_valid.
Proof.
  intros He Hu. destruct active; [|by apply reads_only_ret].
  eapply reads_only_bind; [exact He|]. intros more Hm.
  apply reads_only_ret. by apply all_valid_union.
Qed.

Lemma collect_urls_ok (args : arguments) :
  reads_only (collect_urls args) all_valid.
Proof.
  unfold collect_urls.
  eapply reads_only_bind with (P := all_valid).
  { destruct (args_urls args) as [[|u us]|]; try by apply reads_only_ret, all_valid_empty.
    eapply reads_only_bind; [apply report_invalid_ok|]. intros _ _.
    apply reads_only_ret, all_valid_union; [apply all_valid_empty|].
    by apply all_valid_filter. }
  intros urls1 H1. eapply reads_only_bind with (P := all_valid).
  { apply source_ok; [apply load_from_file_lines_ok|done]. }
  intros urls2 H2. eapply reads_only_bind with (P := all_valid).
  { apply source_ok; [apply load_from_stdin_ok|done]. }
  intros urls3 H3. eapply reads_only_bind with (P := all_valid).
  { apply source_ok; [apply load_from_csv_ok|done]. }
  intros urls4 H4. eapply reads_only_bind with (P := all_valid).
  { apply source_ok; [apply load_from_json_ok|done]. }
  intros urls5 H5. eapply reads_only_bind with (P := all_valid).
  { apply source_ok; [apply load_from_sitemap_ok|done]. }
  intros urls6 H6. by apply reads_only_ret.
Qed.

(** C6.  Whatever sources are active, every member of the set
    [collect_urls] returns has passed [is_valid_url], and the set holds
    each URL once. *)
Theorem collect_urls_members_valid (args : arguments) (w w' : world)
    (urls : gset pystr) :
  collect_urls args w = (w', Ok urls) ->
  (forall u, u ∈ urls -> is_valid_url u = true)
  /\ NoDup (elements urls).
Proof.
  intros H. split; [|apply NoDup_elements].
  destruct (collect_urls_ok args w) as (_ & _ & Hv).
  apply Hv. by rewrite H.
Qed.

(** Scenario A: the literal URLs [http://x/a.txt], twice, give a working
    set of one. *)
Example collect_urls_scenario_A (w : world) :
  collect_urls scenario_A w = (w, Ok {[lit "http://x/a.txt"]})
  /\ size ({[lit "http://x/a.txt"]} : gset pystr) = 1%nat.
Proof.
  assert (Hv : is_valid_url (lit "http://x/a.txt") = true) by by vm_compute.
  split; [|apply size_singleton].
  unfold collect_urls, scenario_A.
  cbn [args_urls args_file args_stdin args_csv args_json args_sitemap given
       report_invalid List.filter].
  rewrite Hv. cbn [negb list_to_set]. unfold bind, ret.
  by rewrite !union_empty_r_L, !union_empty_l_L, union_idemp_L.
Qed.

(** C4.  When the set [collect_urls] returns is empty, [main] prints its
    diagnostic and returns: the file system is the one it started with
    (no output directory is made) and no GET is issued after the
    collection (no worker runs). *)
Theorem main_empty_set_stops (args : arguments) (w w1 : world) :
  collect_urls args w = (w1, Ok ∅) ->
  main args w =
    (mkWorld (fs w) (stdin w1) (http w1) (stdout w1 ++ [MsgNoUrlsProvided])
       (requests w1), Ok tt)
  /\ FS.exists_ (fs (fst (main args w))) (args_out args)
     = FS.exists_ (fs w) (args_out args)
  /\ requests (fst (main args w)) = requests w1.
Proof.
  intros H.
  assert (Hfs : fs w1 = fs w).
  { destruct (collect_urls_ok args w) as (Hf & _ & _). by rewrite H in Hf. }
  assert (E : main args w =
              (mkWorld (fs w) (stdin w1) (http w1)
                 (stdout w1 ++ [MsgNoUrlsProvided]) (requests w1), Ok tt)).
  { unfold main, bind. rewrite H.
    rewrite bool_decide_eq_true_2 by done. unfold print. by rewrite Hfs. }
  rewrite E. done.
Qed.

End Aggregator.

(** ** The file system *)

Lemma only_adds_dirs_refl (f : FS.t) : only_adds_dirs f f.
Proof. split; [done|]. by left. Qed.

Lemma only_adds_dirs_trans (f1 f2 f3 : FS.t) :
  only_adds_dirs f1 f2 -> only_adds_dirs f2 f3 -> only_adds_dirs f1 f3.
Proof.
  intros [Hc1 H1] [Hc2 H2]. split; [congruence|]. intros k.
  destruct (H1 k) as [E1|[E1 E1']], (H2 k) as [E2|[E2 E2']].
  - left. congruence.
  - right. split; congruence.
  - right. split; congruence.
  - congruence.
Qed.





Lemma mkdir_only_adds_dirs (p : pystr) (f : FS.t) :
  only_adds_dirs f (fst (FS.mkdir p f)).
Proof.
  unfold FS.mkdir. destruct (FS.locate f _) as [k|].
  - destruct (FS.present f k) eqn:E; cbn; [apply only_adds_dirs_refl|].
    split; [done|]. intros k'. cbn.
    destruct (decide (k = k')) as [<-|Hne].
    + right. rewrite lookup_insert_eq. split; [|done].
      unfold FS.present in E. apply orb_false_iff in E as [_ E].
      by destruct (FS.nodes f !! k).
    + left. by rewrite lookup_insert_ne.
  - destruct (_ && _); apply only_adds_dirs_refl.
Qed.

Lemma mkdir_exist_ok_only_adds_dirs (p : pystr) (f : FS.t) :
  only_adds_dirs f (fst (FS.mkdir_exist_ok p f)).
Proof.
  unfold FS.mkdir_exist_ok. pose proof (mkdir_only_adds_dirs p f) as H.
  destruct (FS.mkdir p f) as [f' [[]|e]]; cbn in *; [done|].
  by destruct (_ && _).
Qed.

Lemma makedirs_fuel_only_adds_dirs (fuel : nat) : forall (name : pystr) (f : FS.t),
  only_adds_dirs f (fst (FS.makedirs_fuel fuel name f)).
Proof.
  induction fuel as [|fuel IH]; intros name f; cbn [FS.makedirs_fuel].
  - destruct (posixpath.split name) as [h t].
    destruct (if negb (Str.truthy t) then posixpath.split h else (h, t)) as [h' t'].
    destruct (_ && _); [apply only_adds_dirs_refl|apply mkdir_exist_ok_only_adds_dirs].
  - destruct (posixpath.split name) as [h t].
    destruct (if negb (Str.truthy t) then posixpath.split h else (h, t)) as [h' t'].
    destruct (_ && _); [|apply mkdir_exist_ok_only_adds_dirs].
    specialize (IH h' f).
    destruct (FS.makedirs_fuel fuel h' f) as [f1 [[]|e]]; cbn in IH.
    + destruct (Str.eqb t' [ch_dot]); [done|].
      eapply only_adds_dirs_trans; [exact IH|apply mkdir_exist_ok_only_adds_dirs].
    + destruct (negb (is_FileExistsError e)); [done|].
      destruct (Str.eqb t' [ch_dot]); [done|].
      eapply only_adds_dirs_trans; [exact IH|apply mkdir_exist_ok_only_adds_dirs].
Qed.

Lemma makedirs_only_adds_dirs (name : pystr) (f : FS.t) :
  only_adds_dirs f (fst (FS.makedirs name f)).
Proof. apply makedirs_fuel_only_adds_dirs. Qed.

(** [makedirs] recurses on a strictly shorter path: the fuel it is given
    is never used up. *)

Lemma lstrip_length (P : N -> bool) (s : pystr) :
  (length (Str.lstrip P s) <= length s)%nat.
Proof.
  induction s as [|a s IH]; [done|]. cbn [Str.lstrip].
  destruct (P a); cbn [length]; lia.
Qed.

Lemma rstrip_length (P : N -> bool) (s : pystr) :
  (length (Str.rstrip P s) <= length s)%nat.
Proof.
  unfold Str.rstrip. rewrite length_rev.
  pose proof (lstrip_length P (rev s)) as H. by rewrite length_rev in H.
Qed.

Lemma dirname_length (p : pystr) :
  (length (posixpath.dirname p) <= length p)%nat
  /\ (posixpath.basename p <> [] ->
      (length (posixpath.dirname p) < length p)%nat).
Proof.
  unfold posixpath.dirname, posixpath.basename.
  destruct (Str.rfind ch_slash p) as [i|].
  - set (head := take (S i) p).
    assert (Hh : (length head <= length p)%nat /\ (length head <= S i)%nat)
      by (unfold head; rewrite length_take; lia).
    assert (Hd : (length (if Str.truthy head
                              && negb (Str.eqb head (replicate (length head) ch_slash))
                           then Str.rstrip (N.eqb ch_slash) head else head)
                  <= length head)%nat).
    { destruct (_ && _); [apply rstrip_length|done]. }
    split; [lia|]. intros Hb.
    assert (S i < length p)%nat; [|lia].
    destruct (decide (S i < length p)%nat) as [|Hge]; [done|].
    rewrite drop_ge in Hb by lia. done.
  - cbn. split; [lia|]. destruct p; [done|]. cbn. lia.
Qed.

Lemma mkdir_not_recursion (name : pystr) (f : FS.t) :
  snd (FS.mkdir_exist_ok name f) <> Raise RecursionError.
Proof.
  unfold FS.mkdir_exist_ok, FS.mkdir.
  destruct (FS.locate f _).
  - destruct (FS.present f _); cbn; [|done]. by destruct (FS.isdir f name).
  - destruct (_ && _); cbn; by destruct (FS.isdir f name).
Qed.

Lemma makedirs_fuel_enough (fuel : nat) : forall (name : pystr) (f : FS.t),
  (length name <= fuel)%nat ->
  snd (FS.makedirs_fuel fuel name f) <> Raise RecursionError.
Proof.
  induction fuel as [|fuel IH]; intros name f Hlen; cbn [FS.makedirs_fuel];
    unfold posixpath.split;
    destruct (dirname_length name) as [Hd1 Hd2];
    destruct (dirname_length (posixpath.dirname name)) as [He1 He2];
    destruct (Str.truthy (posixpath.basename name)) eqn:Et; cbn [negb];
    cbv iota beta;
    lazymatch goal with
    | |- snd (if ?c then _ else _) <> _ =>
        destruct c eqn:E; [|apply mkdir_not_recursion]
    end;
    apply andb_true_iff in E as [E _]; apply andb_true_iff in E as [_ E].
  - assert (posixpath.basename name <> []) by by destruct (posixpath.basename name).
    specialize (Hd2 ltac:(done)). lia.
  - assert (posixpath.basename (posixpath.dirname name) <> [])
      by (by destruct (posixpath.basename (posixpath.dirname name))).
    specialize (He2 ltac:(done)). lia.
  - assert (posixpath.basename name <> []) by by destruct (posixpath.basename name).
    specialize (Hd2 ltac:(done)).
    specialize (IH (posixpath.dirname name) f ltac:(lia)).
    destruct (FS.makedirs_fuel fuel (posixpath.dirname name) f) as [f1 [[]|e]].
    + destruct (Str.eqb _ _); [done|apply mkdir_not_recursion].
    + cbn in IH. destruct e; cbn; try done.
      destruct (Str.eqb _ _); [done|apply mkdir_not_recursion].
  - assert (posixpath.basename (posixpath.dirname name) <> [])
      by (by destruct (posixpath.basename (posixpath.dirname name))).
    specialize (He2 ltac:(done)).
    specialize (IH (posixpath.dirname (posixpath.dirname name)) f ltac:(lia)).
    destruct (FS.makedirs_fuel fuel _ f) as [f1 [[]|e]].
    + destruct (Str.eqb _ _); [done|apply mkdir_not_recursion].
    + cbn in IH. destruct e; cbn; try done.
      destruct (Str.eqb _ _); [done|apply mkdir_not_recursion].
Qed.

Lemma makedirs_terminates (name : pystr) (f : FS.t) :
  snd (FS.makedirs name f) <> Raise RecursionError.
Proof. by apply makedirs_fuel_enough. Qed.

(** A path that exists has a parent directory: every component of a path
    is looked up in a directory. *)

Lemma walk_app (f : FS.t) (a b : list pystr) : forall cur,
  FS.walk f cur (a ++ b) =
  match FS.walk f cur a with
  | Some k => FS.walk f k b
  | None => None
  end.
Proof.
  induction a as [|c a IH]; intros cur; simpl; [done|].
  destruct (FS.is_dir f cur); [|done].
  destruct (_ || _); [apply IH|]. destruct (Str.eqb _ _); apply IH.
Qed.

Lemma walk_cons_is_dir (f : FS.t) cur c cs k :
  FS.walk f cur (c :: cs) = Some k -> FS.is_dir f cur = true.
Proof. simpl. by destruct (FS.is_dir f cur). Qed.

Lemma walk_empties_root (f : FS.t) (n : nat) :
  FS.walk f [] (replicate n []) = Some [].
Proof. induction n as [|n IH]; [done|]. simpl. exact IH. Qed.

Lemma split_replicate (c : N) (n : nat) :
  Str.split c (replicate n c) = replicate (S n) [].
Proof.
  induction n as [|n IH]; [done|].
  cbn [replicate Str.split]. rewrite IH. cbn [replicate]. by rewrite N.eqb_refl.
Qed.

Lemma rfind_None c s : Str.rfind c s = None -> c ∉ s.
Proof.
  induction s as [|a s IH]; simpl; [intros _; apply not_elem_of_nil|].
  destruct (Str.rfind c s); [discriminate|].
  destruct (N.eqb_spec a c); [discriminate|]. intros _.
  apply not_elem_of_cons. split; [congruence|by apply IH].
Qed.


Lemma rfind_Some_parts c s i :
  Str.rfind c s = Some i ->
  exists h tail, s = h ++ c :: tail /\ take (S i) s = h ++ [c] /\ c ∉ tail.
Proof.
  revert i. induction s as [|a s IH]; intros i; simpl; [discriminate|].
  destruct (Str.rfind c s) as [j|] eqn:E.
  - intros H. injection H as <-. destruct (IH j eq_refl) as (h & tail & Hs & Ht & Hn).
    exists (a :: h), tail. cbn [app]. rewrite <- Hs, <- Ht. done.
  - destruct (N.eqb_spec a c) as [->|]; [|discriminate].
    intros H. injection H as <-. exists [], s. repeat split.
    by apply rfind_None.
Qed.

Lemma lstrip_replicate (c : N) (s : pystr) :
  exists m, s = replicate m c ++ Str.lstrip (N.eqb c) s.
Proof.
  induction s as [|a s [m IH]]; [by exists O|]. cbn [Str.lstrip].
  destruct (N.eqb_spec c a) as [<-|].
  - exists (S m). simpl. by f_equal.
  - by exists O.
Qed.

Lemma rev_replicate (c : N) (m : nat) : rev (replicate m c) = replicate m c.
Proof.
  induction m as [|m IH]; [done|]. simpl. rewrite IH.
  change [c] with (replicate 1 c). rewrite <- replicate_add.
  by rewrite Nat.add_comm.
Qed.

Lemma rstrip_replicate (c : N) (s : pystr) :
  exists m, s = Str.rstrip (N.eqb c) s ++ replicate m c.
Proof.
  unfold Str.rstrip. destruct (lstrip_replicate c (rev s)) as [m H].
  exists m. rewrite <- (rev_involutive s) at 1. rewrite H at 1.
  by rewrite rev_app_distr, rev_replicate.
Qed.

Lemma rstrip_snoc (c : N) (s : pystr) :
  Str.rstrip (N.eqb c) (s ++ [c]) = Str.rstrip (N.eqb c) s.
Proof.
  unfold Str.rstrip. rewrite rev_app_distr. cbn [rev app Str.lstrip].
  by rewrite N.eqb_refl.
Qed.

Lemma split_slashes_tail (c : N) (m : nat) (tail : pystr) :
  c ∉ tail ->
  Str.split c (replicate m c ++ tail) = replicate m [] ++ [tail].
Proof.
  intros Ht. induction m as [|m IH]; [by apply split_no_sep_id|].
  cbn [replicate app Str.split]. rewrite IH.
  destruct (replicate m [] ++ [tail]) eqn:E.
  - by destruct (replicate m []).
  - by rewrite N.eqb_refl.
Qed.

Lemma startswith_app_nonempty (d t : pystr) (q : N) :
  d <> [] -> Str.startswith (d ++ t) [q] = Str.startswith d [q].
Proof. by destruct d. Qed.

Lemma exists_parent_isdir (f : FS.t) (p : pystr) :
  FS.exists_ f p = true ->
  posixpath.dirname p = [] \/ FS.isdir f (posixpath.dirname p) = true.
Proof.
  unfold FS.exists_. destruct (FS.locate f p) as [k|] eqn:Hloc; [|discriminate].
  intros _. unfold posixpath.dirname.
  destruct (Str.rfind ch_slash p) as [i|] eqn:Hr; [|by left]. right.
  destruct (rfind_Some_parts _ _ _ Hr) as (h & tail & Hp & Hhead & Htail).
  rewrite Hhead.
  assert (Htruthy : Str.truthy (h ++ [ch_slash]) = true) by by destruct h.
  rewrite Htruthy. cbn [andb].
  unfold FS.locate in Hloc.
  destruct (Str.truthy p) eqn:Htp; [|discriminate].
  destruct (Str.eqb (h ++ [ch_slash]) _) eqn:Hall; cbn [negb].
  - (* the head is made of separators only *)
    apply Str_eqb_eq in Hall. rewrite Hall.
    set (n := length (h ++ [ch_slash])).
    assert (n <> O) by (unfold n; rewrite length_app; cbn; lia).
    unfold FS.isdir, FS.locate.
    destruct n as [|n]; [done|]. cbn [replicate Str.truthy].
    change (Str.startswith (ch_slash :: replicate n ch_slash) [ch_slash])
      with true. cbv iota.
    change (ch_slash :: replicate n ch_slash) with (replicate (S n) ch_slash).
    by rewrite split_replicate, walk_empties_root.
  - rewrite rstrip_snoc.
    destruct (rstrip_replicate ch_slash h) as [m Hh].
    set (d := Str.rstrip (N.eqb ch_slash) h) in *.
    assert (Hd : d <> []).
    { intros Hd. apply Str_eqb_neq in Hall. apply Hall.
      rewrite Hh, Hd. cbn [app].
      change [ch_slash] with (replicate 1 ch_slash).
      rewrite <- replicate_add. by rewrite length_replicate. }
    assert (Hp' : p = d ++ ch_slash :: (replicate m ch_slash ++ tail)).
    { rewrite Hp, Hh. rewrite <- !app_assoc. f_equal.
      change (ch_slash :: tail) with ([ch_slash] ++ tail).
      change (ch_slash :: replicate m ch_slash ++ tail)
        with (replicate (S m) ch_slash ++ tail).
      rewrite app_assoc. f_equal.
      change [ch_slash] with (replicate 1 ch_slash).
      rewrite <- replicate_add. f_equal. lia. }
    rewrite Hp' in Hloc.
    rewrite split_app_sep, (split_slashes_tail _ _ _ Htail) in Hloc.
    rewrite walk_app in Hloc.
    rewrite (startswith_app_nonempty d _ ch_slash Hd) in Hloc.
    unfold FS.isdir, FS.locate.
    assert (Htd : Str.truthy d = true) by by destruct d.
    rewrite Htd.
    destruct (FS.walk f _ (Str.split ch_slash d)) as [k1|]; [|discriminate].
    destruct (replicate m [] ++ [tail]) as [|c cs] eqn:E.
    { by destruct (replicate m []). }
    by apply walk_cons_is_dir in Hloc.
Qed.

(** ** The worker *)

Lemma ensure_parent_only_fs (filepath : pystr) (w : world) :
  let w1 := fst (ensure_parent filepath w) in
  stdin w1 = stdin w /\ http w1 = http w /\ stdout w1 = stdout w
  /\ requests w1 = requests w /\ only_adds_dirs (fs w) (fs w1).
Proof.
  unfold ensure_parent, bind, fs_get, fs_do, ret. cbn.
  destruct (_ && _).
  - pose proof (makedirs_only_adds_dirs (posixpath.dirname filepath) (fs w)) as H.
    destruct (FS.makedirs _ (fs w)) as [f r]. cbn in *. done.
  - cbn. repeat split; try done. apply only_adds_dirs_refl.
Qed.

Lemma ensure_parent_exists (filepath : pystr) (w : world) :
  FS.exists_ (fs w) filepath = true -> ensure_parent filepath w = (w, Ok tt).
Proof.
  intros H. unfold ensure_parent, bind, fs_get, ret. cbn.
  destruct (exists_parent_isdir _ _ H) as [->| ->]; [done|].
  by rewrite andb_false_r.
Qed.

(** Writing a file keeps the directories as they are, so the path that
    was written names the same place afterwards. *)
Lemma walk_is_dir_ext (f f' : FS.t) (comps : list pystr) : forall cur,
  (forall k, FS.is_dir f' k = FS.is_dir f k) ->
  FS.walk f' cur comps = FS.walk f cur comps.
Proof.
  induction comps as [|c cs IH]; intros cur H; simpl; [done|].
  rewrite H. destruct (FS.is_dir f cur); [|done].
  destruct (_ || _); [by apply IH|]. destruct (Str.eqb _ _); by apply IH.
Qed.

Lemma write_ok_inv (p : pystr) (content : list N) (f f' : FS.t) :
  FS.write p content f = (f', Ok tt) ->
  exists k, FS.locate f p = Some k /\ FS.is_dir f k = false
            /\ f' = FS.mk (<[k := FS.File content]> (FS.nodes f)) (FS.cwd f).
Proof.
  unfold FS.write. destruct (FS.locate f p) as [k|]; [|discriminate].
  destruct (FS.is_dir f k) eqn:E; [discriminate|].
  intros H. injection H as <-. by exists k.
Qed.

Lemma write_is_dir (k : list pystr) (content : list N) (f : FS.t) :
  FS.is_dir f k = false ->
  forall k', FS.is_dir (FS.mk (<[k := FS.File content]> (FS.nodes f)) (FS.cwd f)) k'
             = FS.is_dir f k'.
Proof.
  intros Hk k'. unfold FS.is_dir in *. cbn.
  destruct (bool_decide (k' = [])); [done|]. cbn.
  destruct (decide (k = k')) as [<-|Hne].
  - rewrite lookup_insert_eq. apply orb_false_iff in Hk as [_ Hk].
    by destruct (FS.nodes f !! k) as [[]|].
  - by rewrite lookup_insert_ne.
Qed.

Lemma write_then_read (p : pystr) (content : list N) (f f' : FS.t) :
  FS.write p content f = (f', Ok tt) ->
  FS.read f' p = Some content
  /\ forall q, FS.locate f q <> FS.locate f p -> FS.read f' q = FS.read f q.
Proof.
  intros H. destruct (write_ok_inv _ _ _ _ H) as (k & Hloc & Hdir & ->).
  assert (Hl : forall q, FS.locate (FS.mk (<[k := FS.File content]> (FS.nodes f))
                                      (FS.cwd f)) q = FS.locate f q).
  { intros q. unfold FS.locate. destruct (Str.truthy q); [|done]. cbn [FS.cwd].
    apply walk_is_dir_ext. by apply write_is_dir. }
  split.
  - unfold FS.read. rewrite Hl, Hloc. cbn. by rewrite lookup_insert_eq.
  - intros q Hq. unfold FS.read. rewrite Hl.
    destruct (FS.locate f q) as [k'|]; [|done]. cbn.
    rewrite lookup_insert_ne; [done|]. intros ->. by rewrite Hloc in Hq.
Qed.

Section Worker.

Context {lib : PyLib}.

Lemma download_and_save_unfold (url out_dir : pystr)
    (preserve_path skip_existing : bool) (w : world) :
  download_and_save url out_dir preserve_path skip_existing w =
  match resolve_filepath url out_dir preserve_path with
  | Raise e => (w, Raise e)
  | Ok filepath =>
      match ensure_parent filepath w with
      | (w1, Raise e) => (w1, Raise e)
      | (w1, Ok _) =>
          if skip_existing && FS.exists_ (fs w1) filepath
          then print (MsgSkipExists filepath) w1
          else fetch_and_write url filepath w1
      end
  end.
Proof.
  unfold download_and_save, ensure_parent, fetch_and_write.
  unfold bind, lift, fs_get.
  destruct (resolve_filepath url out_dir preserve_path) as [filepath|e]; [|done].
  destruct ((if Str.truthy (posixpath.dirname filepath)
                && negb (FS.isdir (fs w) (posixpath.dirname filepath))
             then fs_do (FS.makedirs (posixpath.dirname filepath))
             else ret tt) w) as [w1 [[]|e]]; [|done].
  by destruct (skip_existing && FS.exists_ (fs w1) filepath).
Qed.

Lemma fetch_and_write_fails (url filepath : pystr) (w : world) (e : exn) :
  get_failure (http w url) = Some e ->
  fetch_and_write url filepath w =
    (mkWorld (fs w) (stdin w) (http w) (stdout w ++ [MsgGet url; MsgError url e])
       (requests w ++ [url]), Ok tt).
Proof.
  unfold get_failure, fetch_and_write, try_catch, bind, print, requests_get, lift.
  cbn. destruct (http w url) as [status_code content|]; cbn.
  - destruct (raise_for_status (status_code, content)) as [[]|e'] eqn:E; [discriminate|].
    intros H. injection H as ->. cbn. by rewrite <- app_assoc.
  - intros H. injection H as <-. cbn. by rewrite <- app_assoc.
Qed.

Lemma fetch_and_write_returns (url filepath : pystr) (w : world) :
  snd (fetch_and_write url filepath w) = Ok tt.
Proof.
  unfold fetch_and_write, try_catch, bind, print, requests_get, lift, fs_do. cbn.
  destruct (http w url) as [status_code content|]; cbn; [|done].
  destruct (raise_for_status (status_code, content)) as [[]|e]; cbn; [|done].
  by destruct (FS.write filepath content (fs w)) as [f [[]|e]].
Qed.

(** A valid URL has a resolved path: in [main] the path resolution of a
    worker does not raise. *)
Lemma resolve_filepath_valid (url out_dir : pystr) (preserve_path : bool) :
  is_valid_url url = true ->
  exists filepath, resolve_filepath url out_dir preserve_path = Ok filepath.
Proof.
  intros H. apply is_valid_url_iff in H as (p & Hp & _).
  unfold resolve_filepath. rewrite Hp. cbn [rbind].
  destruct preserve_path; eauto.
Qed.

(** Past the making of the parent directory the worker returns normally,
    whatever the GET and the write do. *)
Lemma download_and_save_returns (url out_dir : pystr)
    (preserve_path skip_existing : bool) (w w1 : world) (filepath : pystr) :
  resolve_filepath url out_dir preserve_path = Ok filepath ->
  ensure_parent filepath w = (w1, Ok tt) ->
  snd (download_and_save url out_dir preserve_path skip_existing w) = Ok tt.
Proof.
  intros Hres Hpar. rewrite download_and_save_unfold, Hres, Hpar.
  destruct (_ && _); [done|apply fetch_and_write_returns].
Qed.

Lemma submit_all_cons (args : arguments) (u : pystr) (us : list pystr) (w : world) :
  submit_all args (u :: us) w =
  let '(w1, r) := download_and_save u (args_out args) (args_preserve_path args)
                    (args_skip_existing args) w in
  let '(w2, futures) := submit_all args us w1 in
  (w2, rbind futures (fun fs => Ok ((u, r) :: fs))).
Proof.
  cbn [submit_all]. unfold bind, submit, ret.
  destruct (download_and_save _ _ _ _ w) as [w1 r].
  by destruct (submit_all args us w1) as [w2 [fs|e]].
Qed.

Lemma submit_all_returns (args : arguments) (us : list pystr) : forall w,
  exists futures,
    snd (submit_all args us w) = Ok futures /\ List.map fst futures = us.
Proof.
  induction us as [|u us IH]; intros w; [by exists []|].
  rewrite submit_all_cons.
  destruct (download_and_save _ _ _ _ w) as [w1 r].
  destruct (IH w1) as (fs & Hfs & Hmap).
  destruct (submit_all args us w1) as [w2 r2]. cbn in Hfs. subst r2.
  exists ((u, r) :: fs). cbn. by rewrite Hmap.
Qed.

(** C5.  With [skip_existing] set and the resolved path already there,
    the worker prints its [Skip] line and returns: no directory is made, no
    GET is issued, nothing is written. *)
Theorem skip_existing_no_get (url out_dir : pystr) (preserve_path : bool)
    (w : world) (filepath : pystr) :
  resolve_filepath url out_dir preserve_path = Ok filepath ->
  FS.exists_ (fs w) filepath = true ->
  download_and_save url out_dir preserve_path true w =
    (mkWorld (fs w) (stdin w) (http w) (stdout w ++ [MsgSkipExists filepath])
       (requests w), Ok tt).
Proof.
  intros Hres Hex. rewrite download_and_save_unfold, Hres.
  rewrite (ensure_parent_exists _ _ Hex). by rewrite Hex.
Qed.

Lemma raise_for_status_cases (status_code : N) (content : list N) :
  raise_for_status (status_code, content)
  = if (400 <=? status_code) && (status_code <? 600)
    then Raise (HTTPError status_code) else Ok tt.
Proof.
  unfold raise_for_status. cbn [fst].
  destruct (N.leb_spec 400 status_code), (N.ltb_spec status_code 500),
    (N.leb_spec 500 status_code), (N.ltb_spec status_code 600); cbn; try done; lia.
Qed.

Lemma fetch_and_write_cases (url filepath : pystr) (w : world) :
  fetch_and_write url filepath w =
  (match http w url with
   | TransportError => after_get w url (fs w) (MsgError url RequestException)
   | Response status_code content =>
       if (400 <=? status_code) && (status_code <? 600)
       then after_get w url (fs w) (MsgError url (HTTPError status_code))
       else match FS.write filepath content (fs w) with
            | (f2, Ok _) => after_get w url f2 (MsgSaved filepath)
            | (f2, Raise e) => after_get w url f2 (MsgError url e)
            end
   end, Ok tt).
Proof.
  unfold fetch_and_write, try_catch, bind, print, requests_get, lift, fs_do, after_get.
  cbn. destruct (http w url) as [status_code content|]; cbn.
  - rewrite raise_for_status_cases.
    destruct ((400 <=? status_code) && (status_code <? 600)); cbn.
    + by rewrite <- app_assoc.
    + destruct (FS.write filepath content (fs w)) as [f2 [[]|e]]; cbn;
        by rewrite <- app_assoc.
  - by rewrite <- app_assoc.
Qed.

(** C3, as the code has it.  Past the making of the parent directory
    the worker returns normally whatever the GET and the write do, and the
    workers submitted after it run from the world it leaves.  A transport
    error or a response with a status in 400..599 ends in the [Error] line
    with that exception, the file system being the one the directory step
    left.  A response with any other status is not a failure: its body is
    given to the write, and the last line is [Saved] when the write
    succeeds and [Error] with the exception of the write when it does
    not. *)
Theorem fetch_failure_reported (args : arguments) (url : pystr)
    (w w1 : world) (filepath : pystr) :
  resolve_filepath url (args_out args) (args_preserve_path args) = Ok filepath ->
  ensure_parent filepath w = (w1, Ok tt) ->
  args_skip_existing args && FS.exists_ (fs w1) filepath = false ->
  match http w url with
  | TransportError =>
      worker_ends args url w
        (after_get w url (fs w1) (MsgError url RequestException))
  | Response status_code content =>
      if (400 <=? status_code) && (status_code <? 600)
      then worker_ends args url w
             (after_get w url (fs w1) (MsgError url (HTTPError status_code)))
      else match FS.write filepath content (fs w1) with
           | (f2, Ok _) =>
               worker_ends args url w (after_get w url f2 (MsgSaved filepath))
           | (f2, Raise e) =>
               worker_ends args url w (after_get w url f2 (MsgError url e))
           end
  end.
Proof.
  intros Hres Hpar Hskip.
  destruct (ensure_parent_only_fs filepath w) as (Hi & Hh & Ho & Hr & _).
  rewrite Hpar in Hi, Hh, Ho, Hr. cbn in Hi, Hh, Ho, Hr.
  assert (E : download_and_save url (args_out args) (args_preserve_path args)
                (args_skip_existing args) w = fetch_and_write url filepath w1)
    by by rewrite download_and_save_unfold, Hres, Hpar, Hskip.
  assert (K : forall w', fetch_and_write url filepath w1 = (w', Ok tt) ->
                         worker_ends args url w w').
  { intros w' Hw'. split; [by rewrite E|].
    intros rest. by rewrite submit_all_cons, E, Hw'. }
  rewrite fetch_and_write_cases in K. unfold after_get in *.
  rewrite Hi, Hh, Ho, Hr in K.
  destruct (http w url) as [status_code content|]; [|by apply K].
  destruct ((400 <=? status_code) && (status_code <? 600)); [by apply K|].
  destruct (FS.write filepath content (fs w1)) as [f2 [[]|e]]; by apply K.
Qed.


Lemma main_returns (args : arguments) (w wc w2 : world) (urls : gset pystr) :
  collect_urls args w = (wc, Ok urls) ->
  urls <> ∅ ->
  fs_do (FS.makedirs (args_out args)) wc = (w2, Ok tt) ->
  (0 < args_producers args)%Z ->
  snd (main args w) = Ok tt.
Proof.
  intros Hc Hne Hmk Hp. unfold main. unfold bind at 1. rewrite Hc.
  rewrite bool_decide_eq_false_2 by done.
  unfold bind at 1. rewrite Hmk. unfold bind at 1. cbn [print].
  unfold bind at 1.
  destruct (Z.leb_spec (args_producers args) 0) as [|_]; [lia|]. cbn [ret].
  unfold bind.
  match goal with |- context [submit_all args ?us ?w0] =>
    destruct (submit_all_returns args us w0) as (fs & Hfs & _);
    destruct (submit_all args us w0) as [w3 r3] end.
  cbn in Hfs. by subst r3.
Qed.

(** C10.  An exception of [resolve_filepath] or of the making of the
    parent directory leaves [download_and_save] as it is: nothing has been
    printed and no GET issued.  The future keeps it, [submit_all] goes on
    with the other URLs, and [main] returns normally whatever the workers
    raised. *)
Theorem setup_error_not_reported (args : arguments) (url : pystr)
    (w w1 : world) (e : exn) :
  (resolve_filepath url (args_out args) (args_preserve_path args) = Raise e
   /\ w1 = w)
  \/ (exists filepath,
        resolve_filepath url (args_out args) (args_preserve_path args) = Ok filepath
        /\ ensure_parent filepath w = (w1, Raise e)) ->
  download_and_save url (args_out args) (args_preserve_path args)
    (args_skip_existing args) w = (w1, Raise e)
  /\ stdout w1 = stdout w
  /\ requests w1 = requests w
  /\ (forall rest,
        submit_all args (url :: rest) w =
        let '(w2, futures) := submit_all args rest w1 in
        (w2, rbind futures (fun fs => Ok ((url, Raise e) :: fs))))
  /\ (forall rest, exists futures, snd (submit_all args (url :: rest) w) = Ok futures)
  /\ (forall w0 wc w2 urls,
        collect_urls args w0 = (wc, Ok urls) -> urls <> ∅ ->
        fs_do (FS.makedirs (args_out args)) wc = (w2, Ok tt) ->
        (0 < args_producers args)%Z ->
        snd (main args w0) = Ok tt).
Proof.
  intros H.
  assert (E : download_and_save url (args_out args) (args_preserve_path args)
                (args_skip_existing args) w = (w1, Raise e)
              /\ stdout w1 = stdout w /\ requests w1 = requests w).
  { rewrite download_and_save_unfold.
    destruct H as [[Hres ->]|(filepath & Hres & Hpar)]; rewrite Hres; [done|].
    rewrite Hpar. split; [done|].
    destruct (ensure_parent_only_fs filepath w) as (_ & _ & Ho & Hr & _).
    rewrite Hpar in Ho, Hr. done. }
  destruct E as (E & Ho & Hr). repeat split; try done.
  - intros rest. by rewrite submit_all_cons, E.
  - intros rest. destruct (submit_all_returns args (url :: rest) w) as (fs & Hfs & _).
    by exists fs.
  - intros w0 wc w2 urls. apply main_returns.
Qed.

End Worker.

(** * The scenarios, run *)

(** The path of [http://x/../../etc/passwd] stays under [out]. *)
Lemma resolve_filepath_preserve_inside_root_witness :
  resolve_filepath (lib := lib0) (lit "http://x/../../etc/passwd") (lit "out") true
  = Ok (lit "out/_/_/etc/passwd")
  /\ exists rel,
       lit "out/_/_/etc/passwd" = posixpath.join (lit "out") rel
       /\ (lit "out/_/_/etc/passwd" = (lit "out" ++ rel)
           \/ lit "out/_/_/etc/passwd" = (lit "out" ++ ch_slash :: rel))
       /\ Str.startswith rel [ch_slash] = false
       /\ (s_dotdot ∉ Str.split ch_slash rel)
       /\ leaves_root 0 (Str.split ch_slash rel) = false.
Proof.
  split; [by vm_compute|].
  apply (resolve_filepath_preserve_inside_root (lib := lib0)
           (lit "http://x/../../etc/passwd") (lit "out")).
  by vm_compute.
Defined.

(** A status 304 is not 2xx, and the worker saves the body it came with. *)
Lemma non_2xx_is_failed_counterexample : ~ non_2xx_is_failed.
Proof.
  intros H.
  destruct (H lib0 (lit "http://cached/f") (lit "out") false false w_demo w_demo
              (lit "out/f") 304 [7]) as [e He];
    [by vm_compute|by vm_compute|by vm_compute|by vm_compute|by vm_compute|].
  vm_compute in He. discriminate He.
Qed.

(** A status 404 is reported and the next worker runs; a status 304 is
    saved; a status 304 whose path is a directory is reported. *)
Lemma fetch_failure_reported_witness :
  worker_ends (lib := lib0) (args_demo None false false) (lit "http://missing/f")
    w_demo
    (after_get w_demo (lit "http://missing/f") fs_demo
       (MsgError (lit "http://missing/f") (HTTPError 404)))
  /\ worker_ends (lib := lib0) (args_demo None false false) (lit "http://cached/f")
       w_demo
       (after_get w_demo (lit "http://cached/f")
          (fst (FS.write (lit "out/f") [7] fs_demo)) (MsgSaved (lit "out/f")))
  /\ worker_ends (lib := lib0) (args_demo None false false) (lit "http://cached/..")
       w_demo
       (after_get w_demo (lit "http://cached/..") fs_demo
          (MsgError (lit "http://cached/..") OSError)).
Proof.
  split; [|split].
  - exact (fetch_failure_reported (lib := lib0) (args_demo None false false)
             (lit "http://missing/f") w_demo w_demo (lit "out/f")
             ltac:(by vm_compute) ltac:(by vm_compute) ltac:(by vm_compute)).
  - exact (fetch_failure_reported (lib := lib0) (args_demo None false false)
             (lit "http://cached/f") w_demo w_demo (lit "out/f")
             ltac:(by vm_compute) ltac:(by vm_compute) ltac:(by vm_compute)).
  - exact (fetch_failure_reported (lib := lib0) (args_demo None false false)
             (lit "http://cached/..") w_demo w_demo (lit "out/..")
             ltac:(by vm_compute) ltac:(by vm_compute) ltac:(by vm_compute)).
Defined.

(** No sources: [main] stops after its diagnostic. *)
Lemma main_empty_set_stops_witness :
  main (lib := lib0) (args_demo None false false) w_demo
  = (mkWorld fs_demo [] http_demo [MsgNoUrlsProvided] [], Ok tt).
Proof.
  apply (main_empty_set_stops (lib := lib0) (args_demo None false false)
           w_demo w_demo).
  by vm_compute.
Defined.

(** [out/a] is there: [http://x/a] is skipped. *)
Lemma skip_existing_no_get_witness :
  download_and_save (lib := lib0) (lit "http://x/a") (lit "out") true true w_demo
  = (mkWorld fs_demo [] http_demo [MsgSkipExists (lit "out/a")] [], Ok tt).
Proof.
  apply (skip_existing_no_get (lib := lib0) (lit "http://x/a") (lit "out") true
           w_demo (lit "out/a")); by vm_compute.
Defined.

(** Scenario A: the one URL of the working set is valid. *)
Lemma collect_urls_members_valid_witness :
  (forall u, u ∈ ({[lit "http://x/a.txt"]} : gset pystr) ->
             is_valid_url (lib := lib0) u = true)
  /\ NoDup (elements ({[lit "http://x/a.txt"]} : gset pystr)).
Proof.
  apply (collect_urls_members_valid (lib := lib0) scenario_A w_demo w_demo).
  apply (collect_urls_scenario_A (lib := lib0)).
Defined.

(** Scenario B, from the file [urls.json]. *)
Lemma load_from_json_tree_walk_witness :
  exists urls : gset pystr,
    load_from_json (lib := lib0) (lit "urls.json") None w_demo = (w_demo, Ok urls)
    /\ urls = _collect_urls_any (lib := lib0) scenario_B ∅
    /\ forall s, s ∈ urls <->
                 occurs s scenario_B /\ is_valid_url (lib := lib0) s = true.
Proof.
  apply (load_from_json_tree_walk (lib := lib0) (lit "urls.json") None w_demo
           [123] scenario_B); by vm_compute.
Defined.

(** Scenario D, from the file [sitemap.xml]: both namespaced entries are
    returned. *)
Lemma load_from_sitemap_loc_elements_witness :
  snd (load_from_sitemap (lib := lib0) (lit "sitemap.xml") w_demo)
  = Ok {[lit "http://x/p1"; lit "http://x/p2"]}
  /\ exists urls : gset pystr,
       snd (load_from_sitemap (lib := lib0) (lit "sitemap.xml") w_demo) = Ok urls
       /\ stdout (fst (load_from_sitemap (lib := lib0) (lit "sitemap.xml") w_demo))
          = stdout w_demo
       /\ forall u,
            u ∈ urls <->
            exists e t txt,
              element_of e scenario_D
              /\ tag e = Some t /\ ends_in_loc (local_name t)
              /\ text e = Some txt /\ trimmed_of txt u
              /\ is_valid_url (lib := lib0) u = true.
Proof.
  split; [by vm_compute|].
  apply (load_from_sitemap_loc_elements (lib := lib0)
           (lower_keeps_off_loc_ascii_id lib0 (fun c => eq_refl))
           (lit "sitemap.xml") w_demo [60] scenario_D);
    [left; split|]; by vm_compute.
Defined.



(** The file [out/a] stands where the directory [out/a] is wanted. *)
Lemma setup_error_not_reported_witness :
  download_and_save (lib := lib0) (lit "http://x/a/b") (lit "out") true false w_demo
  = (w_demo, Raise FileExistsError).
Proof.
  apply (setup_error_not_reported (lib := lib0) (args_demo None true false)
           (lit "http://x/a/b") w_demo w_demo FileExistsError).
  right. exists (lit "out/a/b"). split; by vm_compute.
Defined.

(** * Further properties of the worker and the resolver *)



Section WorkerOutcomes.

Context {lib : PyLib}.


(** X2.  However it ends, one call of the worker leaves one of four
    traces: an exception before anything is printed or fetched; a [Skip]
    line and no GET; or a [Get] line, one GET of the URL, and then either
    a [Saved] or an [Error] line. *)
Theorem download_and_save_outcomes (url out_dir : pystr)
    (preserve_path skip_existing : bool) (w : world) :
  let w' := fst (download_and_save url out_dir preserve_path skip_existing w) in
  let r := snd (download_and_save url out_dir preserve_path skip_existing w) in
  (exists e, r = Raise e /\ stdout w' = stdout w /\ requests w' = requests w)
  \/ (exists filepath,
        r = Ok tt /\ skip_existing = true
        /\ stdout w' = stdout w ++ [MsgSkipExists filepath]
        /\ requests w' = requests w)
  \/ (exists filepath,
        r = Ok tt
        /\ stdout w' = stdout w ++ [MsgGet url; MsgSaved filepath]
        /\ requests w' = requests w ++ [url])
  \/ (exists e,
        r = Ok tt
        /\ stdout w' = stdout w ++ [MsgGet url; MsgError url e]
        /\ requests w' = requests w ++ [url]).
Proof.
  cbv zeta. rewrite download_and_save_unfold.
  destruct (resolve_filepath url out_dir preserve_path) as [filepath|e];
    [|left; by exists e].
  destruct (ensure_parent_only_fs filepath w) as (_ & Hh & Ho & Hr & _).
  destruct (ensure_parent filepath w) as [w1 [[]|e]]; cbn in Hh, Ho, Hr;
    [|left; by exists e].
  destruct skip_existing; cbn [andb].
  - destruct (FS.exists_ (fs w1) filepath).
    + right. left. exists filepath. cbn. by rewrite Ho, Hr.
    + unfold fetch_and_write, try_catch, bind, print, requests_get, lift, fs_do. cbn.
      rewrite Ho, Hr.
      destruct (http w1 url) as [status_code content|]; cbn.
      * destruct (raise_for_status (status_code, content)) as [[]|e]; cbn.
        -- destruct (FS.write filepath content (fs w1)) as [f [[]|e]]; cbn.
           ++ right. right. left. exists filepath. by rewrite <- !app_assoc.
           ++ right. right. right. exists e. by rewrite <- !app_assoc.
        -- right. right. right. exists e. by rewrite <- !app_assoc.
      * right. right. right. exists RequestException. by rewrite <- !app_assoc.
  - unfold fetch_and_write, try_catch, bind, print, requests_get, lift, fs_do. cbn.
    rewrite Ho, Hr.
    destruct (http w1 url) as [status_code content|]; cbn.
    + destruct (raise_for_status (status_code, content)) as [[]|e]; cbn.
      * destruct (FS.write filepath content (fs w1)) as [f [[]|e]]; cbn.
        -- right. right. left. exists filepath. by rewrite <- !app_assoc.
        -- right. right. right. exists e. by rewrite <- !app_assoc.
      * right. right. right. exists e. by rewrite <- !app_assoc.
    + right. right. right. exists RequestException. by rewrite <- !app_assoc.
Qed.

(** X3.  When the GET yields a response whose status is not 4xx or 5xx
    and the file can be written, the worker prints [Get] and [Saved], and
    the file at the resolved path then holds the body of the response,
    whatever it held before; the files at other places are as the making
    of the parent directory left them. *)
Theorem download_and_save_stores_body (url out_dir : pystr)
    (preserve_path skip_existing : bool) (w w1 : world) (filepath : pystr)
    (status_code : N) (content : list N) (f2 : FS.t) :
  resolve_filepath url out_dir preserve_path = Ok filepath ->
  ensure_parent filepath w = (w1, Ok tt) ->
  skip_existing && FS.exists_ (fs w1) filepath = false ->
  http w url = Response status_code content ->
  raise_for_status (status_code, content) = Ok tt ->
  FS.write filepath content (fs w1) = (f2, Ok tt) ->
  download_and_save url out_dir preserve_path skip_existing w =
    (mkWorld f2 (stdin w) (http w) (stdout w ++ [MsgGet url; MsgSaved filepath])
       (requests w ++ [url]), Ok tt)
  /\ FS.read f2 filepath = Some content
  /\ forall q, FS.locate (fs w1) q <> FS.locate (fs w1) filepath ->
               FS.read f2 q = FS.read (fs w1) q.
Proof.
  intros Hres Hpar Hskip Hget Hst Hwr.
  destruct (ensure_parent_only_fs filepath w) as (Hi & Hh & Ho & Hr & _).
  rewrite Hpar in Hi, Hh, Ho, Hr. cbn in Hi, Hh, Ho, Hr.
  split; [|by apply write_then_read].
  rewrite download_and_save_unfold, Hres, Hpar, Hskip.
  unfold fetch_and_write, try_catch, bind, print, requests_get, lift, fs_do. cbn.
  rewrite Hh, Hget. cbn. rewrite Hst. cbn. rewrite Hwr. cbn.
  by rewrite Hi, Ho, Hr, <- !app_assoc.
Qed.

End WorkerOutcomes.

(** * Further properties of the extractors *)

Lemma get_by_parts_app (a b : list pystr) : forall obj,
  get_by_parts obj (a ++ b) =
  match get_by_parts obj a with
  | Some v => get_by_parts v b
  | None => None
  end.
Proof.
  induction a as [|part a IH]; intros obj; [done|]. cbn [app get_by_parts].
  destruct obj; try done.
  destruct (dict_get part items); [apply IH|done].
Qed.

Lemma dict_get_spec (key : pystr) (items : list (pystr * json)) (v : json) :
  NoDup (List.map fst items) ->
  dict_get key items = Some v <-> (key, v) ∈ items.
Proof.
  induction items as [|[k v'] items IH]; intros Hnd; cbn [dict_get].
  - split; [discriminate|]. intros H. by apply elem_of_nil in H.
  - cbn in Hnd. apply NoDup_cons in Hnd as [Hk Hnd].
    unfold Str.eqb. destruct (decide (k = key)) as [->|Hne].
    + rewrite bool_decide_eq_true_2 by done. split.
      * intros H. injection H as <-. by left.
      * intros H. apply elem_of_cons in H as [H|H]; [by injection H as <-|].
        exfalso. apply Hk. apply list_elem_of_fmap. by exists (key, v).
    + rewrite bool_decide_eq_false_2 by done. rewrite (IH Hnd). split.
      * intros H. by right.
      * intros H. apply elem_of_cons in H as [H|H]; [|done].
        injection H as -> _. done.
Qed.

Lemma distinct_keys_item (items : list (pystr * json)) (key : pystr) (v : json) :
  distinct_keys (JDict items) = true -> (key, v) ∈ items -> distinct_keys v = true.
Proof.
  cbn [distinct_keys]. intros H Hin. apply andb_true_iff in H as [_ H].
  rewrite forallb_forall in H. apply list_elem_of_In in Hin. exact (H _ Hin).
Qed.

Lemma get_by_parts_leads (parts : list pystr) : forall (doc v : json),
  distinct_keys doc = true ->
  get_by_parts doc parts = Some v <-> leads_to doc parts v.
Proof.
  induction parts as [|part parts IH]; intros doc v Hd; cbn [get_by_parts].
  - split.
    + intros H. injection H as <-. constructor.
    + intros H. by inversion H.
  - destruct doc as [ |b|n|s|items|items];
      try (split; [discriminate|intros H; inversion H]).
    assert (Hnd : NoDup (List.map fst items)).
    { cbn [distinct_keys] in Hd. apply andb_true_iff in Hd as [Hd _].
      by apply bool_decide_eq_true in Hd. }
    split.
    + destruct (dict_get part items) as [v'|] eqn:E; [|discriminate].
      apply (dict_get_spec _ _ _ Hnd) in E. intros H.
      apply (leads_on _ _ v'); [done|].
      apply IH; [by apply (distinct_keys_item items part)|done].
    + intros H. inversion H as [|? ? v' ? ? Hin Hl]; subst.
      apply (dict_get_spec _ _ _ Hnd) in Hin as E. rewrite E.
      apply IH; [by apply (distinct_keys_item items part)|done].
Qed.

(** X4.  A dotted key path is followed part by part.  The path [a.b]
    leads where [b] leads from where [a] leads, and nowhere when [a] leads
    nowhere.  In a document whose objects have distinct keys, the path
    made of the keys [k1], ..., [kn] leads to a value exactly when [k1] is
    a key of the document, [k2] a key of the object found under [k1], and
    so on to that value; it leads nowhere as soon as a key is missing or
    the value reached is not an object. *)
Theorem get_by_keypath_compose :
  (forall (obj : json) (a b : pystr),
     _get_by_keypath obj (a ++ ch_dot :: b) =
     match _get_by_keypath obj a with
     | Some v => _get_by_keypath v b
     | None => None
     end)
  /\ (forall (doc : json) (parts : list pystr) (v : json),
        distinct_keys doc = true ->
        parts <> [] ->
        Forall (fun part => ch_dot ∉ part) parts ->
        _get_by_keypath doc (Str.join ch_dot parts) = Some v
        <-> leads_to doc parts v).
Proof.
  split.
  - intros obj a b. unfold _get_by_keypath.
    by rewrite split_app_sep, get_by_parts_app.
  - intros doc parts v Hd Hne Hdots. unfold _get_by_keypath.
    rewrite split_join by done. by apply get_by_parts_leads.
Qed.

Section ExtractorDetails.

Context {lib : PyLib}.

Lemma json_list_step_spec (items : list json) : forall (urls : gset pystr) (u : pystr),
  u ∈ fold_left json_list_step items urls <->
  u ∈ urls \/ (JStr u ∈ items /\ is_valid_url u = true).
Proof.
  induction items as [|v items IH]; intros urls u; cbn [fold_left].
  - split; [by left|]. intros [H|[H _]]; [done|]. by apply elem_of_nil in H.
  - rewrite IH. split.
    + intros [H|[H Hv]]; [|right; split; [by right|done]].
      destruct v; cbn in H; try by left.
      destruct (is_valid_url s) eqn:E; [|by left].
      apply elem_of_union in H as [H|H]; [|by left].
      apply elem_of_singleton in H as ->. right. split; [by left|done].
    + intros [H|[H Hv]].
      * left. destruct v; cbn; try done.
        destruct (is_valid_url s); [|done]. apply elem_of_union. by right.
      * apply elem_of_cons in H as [<-|H]; [|by right].
        left. cbn. rewrite Hv. apply elem_of_union. left. by apply elem_of_singleton.
Qed.

Lemma load_from_json_with_key (path : pystr) (key : option pystr) (w : world)
    (content : list N) (doc : json) :
  given key = true ->
  FS.read (fs w) path = Some content ->
  json_load content = Ok doc ->
  load_from_json path key w =
    (w, Ok match _get_by_keypath doc (default [] key) with
           | Some (JList items) => fold_left json_list_step items ∅
           | Some (JStr s) => if is_valid_url s then {[s]} ∪ ∅ else ∅
           | _ => ∅
           end).
Proof.
  intros Hkey Hread Hload.
  unfold load_from_json, bind, fs_get, try_catch, open_read, lift, ret, FS.isfile.
  rewrite Hread. cbn. rewrite Hread, Hload. cbn. rewrite Hkey.
  by destruct (_get_by_keypath doc (default [] key)) as [[ | | | | | ]|].
Qed.

(** X5.  With a key path the JSON extractor looks only at the value the
    keys of the path lead to, one object after the other: a string is kept
    when it is valid, of a list the elements that are valid strings are
    kept (lists and objects inside it are not searched), and any other
    value, or a path that leads nowhere, gives the empty set. *)
Theorem load_from_json_key_path (path : pystr) (parts : list pystr) (w : world)
    (content : list N) (doc : json) :
  parts <> [] ->
  Forall (fun part => ch_dot ∉ part) parts ->
  Str.join ch_dot parts <> [] ->
  FS.read (fs w) path = Some content ->
  json_load content = Ok doc ->
  distinct_keys doc = true ->
  exists urls : gset pystr,
    load_from_json path (Some (Str.join ch_dot parts)) w = (w, Ok urls)
    /\ forall u,
         u ∈ urls <->
         is_valid_url u = true
         /\ (leads_to doc parts (JStr u)
             \/ exists items, leads_to doc parts (JList items) /\ JStr u ∈ items).
Proof.
  intros Hne Hdots Hkey Hread Hload Hd.
  set (keypath := Str.join ch_dot parts) in *.
  assert (Hl : forall v, _get_by_keypath doc keypath = Some v <-> leads_to doc parts v).
  { intros v. unfold _get_by_keypath, keypath. rewrite split_join by done.
    by apply get_by_parts_leads. }
  rewrite (load_from_json_with_key path (Some keypath) w content doc)
    by (done || by destruct keypath).
  change (default [] (Some keypath)) with keypath.
  destruct (_get_by_keypath doc keypath) as [val|] eqn:E.
  - assert (Hu : forall v, leads_to doc parts v -> v = val).
    { intros v Hv. apply Hl in Hv. congruence. }
    destruct val as [ |b|n|s|items|items];
      try (eexists; split; [reflexivity|]; intros u; split;
           [intros H; by apply not_elem_of_empty in H
           |intros [_ [H|(items' & H & _)]]; by apply Hu in H]).
    + eexists. split; [reflexivity|]. intros u. destruct (is_valid_url s) eqn:Ev.
      * rewrite elem_of_union, elem_of_singleton. split.
        -- intros [->|H]; [|by apply not_elem_of_empty in H].
           split; [done|]. left. by apply Hl.
        -- intros [_ [H|(items' & H & _)]]; apply Hu in H; [|discriminate H].
           injection H as <-. by left.
      * split; [intros H; by apply not_elem_of_empty in H|].
        intros [Hv [H|(items' & H & _)]]; apply Hu in H; [|discriminate H].
        injection H as <-. congruence.
    + eexists. split; [reflexivity|]. intros u. rewrite json_list_step_spec. split.
      * intros [H|[H Hv]]; [by apply not_elem_of_empty in H|].
        split; [done|]. right. exists items. split; [by apply Hl|done].
      * intros [Hv [H|(items' & H & Hin)]]; apply Hu in H; [discriminate H|].
        injection H as <-. by right.
  - eexists. split; [reflexivity|]. intros u. split.
    + intros H. by apply not_elem_of_empty in H.
    + intros [_ [H|(items' & H & _)]]; apply Hl in H; discriminate H.
Qed.

(** X6.  [load_from_json] never raises: a missing file gives the empty
    set and the not-found line, a file that cannot be opened or parsed the
    empty set and the parse-failure line with the exception, and in both
    cases nothing else changes. *)
Theorem load_from_json_recovers (path : pystr) (key : option pystr) (w : world) :
  (exists urls, snd (load_from_json path key w) = Ok urls)
  /\ (FS.read (fs w) path = None ->
      load_from_json path key w =
        (mkWorld (fs w) (stdin w) (http w)
           (stdout w ++ [MsgJsonFileNotFound path]) (requests w), Ok ∅))
  /\ (forall content e,
        FS.read (fs w) path = Some content ->
        json_load content = Raise e ->
        load_from_json path key w =
          (mkWorld (fs w) (stdin w) (http w)
             (stdout w ++ [MsgJsonParseFailed path e]) (requests w), Ok ∅)).
Proof.
  unfold load_from_json, bind, fs_get, try_catch, open_read, lift, ret, print,
    FS.isfile.
  destruct (FS.read (fs w) path) as [content|] eqn:Hread; cbn.
  - rewrite Hread. cbn.
    destruct (json_load content) as [doc|e] eqn:Hload; cbn.
    + split; [|split; [discriminate|]].
      * destruct (given key); [|by eexists].
        destruct (_get_by_keypath doc (default [] key)) as [[ | | | | | ]|];
          by eexists.
      * intros content' e' H. injection H as <-. congruence.
    + split; [by eexists|]. split; [discriminate|].
      intros content' e' H. injection H as <-. rewrite Hload.
      intros H. by injection H as <-.
  - split; [by eexists|]. split; [done|]. discriminate.
Qed.



Lemma lstrip_decomp (P : N -> bool) (s : pystr) :
  exists pre, s = pre ++ Str.lstrip P s
              /\ (Str.lstrip P s = []
                  \/ exists a t, Str.lstrip P s = a :: t /\ P a = false).
Proof.
  induction s as [|a s (pre & Hs & Hc)]; [exists []; split; [done|by left]|].
  cbn [Str.lstrip]. destruct (P a) eqn:E.
  - exists (a :: pre). split; [cbn; by f_equal|done].
  - exists []. split; [done|]. right. by exists a, s.
Qed.

Lemma strip_idempotent (s : pystr) : strip (strip s) = strip s.
Proof.
  unfold strip. set (t := Str.lstrip is_space s).
  assert (Ht : t = [] \/ exists b t', t = b :: t' /\ is_space b = false).
  { destruct (lstrip_decomp is_space s) as (_ & _ & H). exact H. }
  unfold Str.rstrip at 2.
  destruct (lstrip_decomp is_space (rev t)) as (pre & Hrev & Hc).
  destruct Hc as [Hnil|(a & t' & Hcons & Ha)].
  - unfold Str.rstrip at 2. rewrite Hnil. done.
  - unfold Str.rstrip at 2. rewrite Hcons. cbn [rev].
    assert (Hr : t = (rev t' ++ [a]) ++ rev pre).
    { rewrite <- (rev_involutive t), Hrev, Hcons, rev_app_distr. done. }
    destruct Ht as [Ht|(b & t'' & Ht & Hb)].
    { rewrite Ht in Hr. by destruct (rev t'). }
    assert (Hl : Str.lstrip is_space (rev t' ++ [a]) = rev t' ++ [a]).
    { rewrite Ht in Hr. destruct (rev t') as [|x r] eqn:Er; cbn in Hr |- *.
      - by rewrite Ha.
      - injection Hr as <- _. by rewrite Hb. }
    rewrite Hl. unfold Str.rstrip. rewrite rev_app_distr, rev_involutive.
    cbn [rev app Str.lstrip]. by rewrite Ha.
Qed.

Lemma urls_of_lines_spec (lines : list pystr) (u : pystr) :
  u ∈ urls_of_lines lines <->
  is_valid_url u = true /\ exists line, line ∈ lines /\ u = strip line.
Proof.
  assert (Hempty : is_valid_url [] = false) by by vm_compute.
  unfold urls_of_lines.
  rewrite elem_of_list_to_set, list_elem_of_In, filter_In, in_map_iff.
  rewrite andb_true_iff. split.
  - intros [(line & <- & Hin) [_ Hv]]. split; [done|].
    exists line. by rewrite list_elem_of_In.
  - intros [Hv (line & Hin & ->)]. split.
    + exists line. by rewrite <- list_elem_of_In.
    + split; [|done]. destruct (strip line); [congruence|done].
Qed.

(** X8.  From a text file the extractor keeps exactly the lines that,
    with the white space around them taken off, are valid URLs: every URL
    it returns is a line of the file between two runs of white space, and
    neither starts nor ends with white space itself. *)
Theorem load_from_file_lines_content (path : pystr) (w : world)
    (content : list N) (lines : list pystr) :
  FS.read (fs w) path = Some content ->
  text_lines content = Ok lines ->
  exists urls : gset pystr,
    load_from_file_lines path w = (w, Ok urls)
    /\ forall u, u ∈ urls <->
                 is_valid_url u = true
                 /\ exists line, line ∈ lines /\ trimmed_of line u.
Proof.
  intros Hread Hlines. exists (urls_of_lines lines). split.
  - unfold load_from_file_lines, bind, fs_get, open_read, lift, ret, FS.isfile.
    rewrite Hread. cbn. by rewrite Hread, Hlines.
  - intros u. rewrite urls_of_lines_spec. split.
    + intros (Hv & line & Hin & ->). split; [done|]. exists line.
      split; [done|apply strip_trimmed].
    + intros (Hv & line & Hin & Ht). split; [done|]. exists line.
      split; [done|by apply trimmed_unique].
Qed.

(** X9.  [load_from_stdin] reads the input to its end and keeps the
    lines, trimmed, that are valid URLs: a second reading finds nothing. *)
Theorem load_from_stdin_content (w : world) :
  exists urls : gset pystr,
    load_from_stdin w =
      (mkWorld (fs w) [] (http w) (stdout w) (requests w), Ok urls)
    /\ (forall u, u ∈ urls <->
                  is_valid_url u = true
                  /\ exists line, line ∈ stdin w /\ u = strip line)
    /\ snd (load_from_stdin (fst (load_from_stdin w))) = Ok ∅.
Proof.
  exists (urls_of_lines (stdin w)). split; [done|]. split.
  - apply urls_of_lines_spec.
  - done.
Qed.

(** X10.  A file that is not there is no error for the line and CSV
    extractors: each returns the empty set after its not-found line, and
    changes nothing else. *)
Theorem missing_file_is_empty (path column : pystr) (w : world) :
  FS.read (fs w) path = None ->
  load_from_file_lines path w =
    (mkWorld (fs w) (stdin w) (http w)
       (stdout w ++ [MsgUrlFileNotFound path]) (requests w), Ok ∅)
  /\ load_from_csv path column w =
       (mkWorld (fs w) (stdin w) (http w)
          (stdout w ++ [MsgCsvFileNotFound path]) (requests w), Ok ∅).
Proof.
  intros Hread.
  unfold load_from_file_lines, load_from_csv, bind, fs_get, print, ret, FS.isfile.
  by rewrite Hread.
Qed.

Lemma csv_row_step_cell (column : pystr) (urls : gset pystr)
    (row : gmap pystr (option pystr)) :
  csv_row_step column urls row =
  if is_valid_url (strip (csv_cell row column))
  then {[strip (csv_cell row column)]} ∪ urls else urls.
Proof.
  assert (Hempty : is_valid_url [] = false) by by vm_compute.
  unfold csv_row_step, csv_cell.
  assert (E : match row !! column with
              | Some (Some cell) => if Str.truthy cell then cell else []
              | _ => []
              end
              = match row !! column with Some (Some cell) => cell | _ => [] end).
  { destruct (row !! column) as [[[|a cell]|]|]; done. }
  rewrite E. set (u := strip _).
  destruct u as [|a u]; cbn [Str.truthy andb]; [by rewrite Hempty|done].
Qed.

Lemma csv_rows_spec (column : pystr) (rs : list (gmap pystr (option pystr))) :
  forall (urls : gset pystr) (u : pystr),
    u ∈ fold_left (csv_row_step column) rs urls <->
    u ∈ urls
    \/ (is_valid_url u = true
        /\ exists row, row ∈ rs /\ u = strip (csv_cell row column)).
Proof.
  induction rs as [|row rs IH]; intros urls u; cbn [fold_left].
  - split; [by left|]. intros [H|(_ & row & H & _)]; [done|].
    by apply elem_of_nil in H.
  - rewrite IH, csv_row_step_cell. split.
    + intros [H|(Hv & r & Hin & ->)].
      * destruct (is_valid_url (strip (csv_cell row column))) eqn:E; [|by left].
        apply elem_of_union in H as [H|H]; [|by left].
        apply elem_of_singleton in H as ->. right. split; [done|].
        exists row. split; [by left|done].
      * right. split; [done|]. exists r. split; [by right|done].
    + intros [H|(Hv & r & Hin & ->)].
      * left. destruct (is_valid_url _); [|done]. apply elem_of_union. by right.
      * apply elem_of_cons in Hin as [->|Hin].
        -- left. rewrite Hv. apply elem_of_union. left. by apply elem_of_singleton.
        -- right. split; [done|]. by exists r.
Qed.

(** X11.  From a CSV file that has the column, the extractor keeps the
    cells of that column, trimmed, that are valid URLs, a missing or empty
    cell counting as the empty string; nothing else is kept. *)
Theorem load_from_csv_content (path column : pystr) (w : world)
    (content : list N) (names : option (list pystr))
    (rs : list (gmap pystr (option pystr))) :
  FS.read (fs w) path = Some content ->
  fieldnames (csv_DictReader content) = Ok names ->
  column ∈ default [] names ->
  rows (csv_DictReader content) = Ok rs ->
  exists urls : gset pystr,
    load_from_csv path column w = (w, Ok urls)
    /\ forall u,
         u ∈ urls <->
         is_valid_url u = true
         /\ exists row, row ∈ rs /\ u = strip (csv_cell row column).
Proof.
  intros Hread Hnames Hcol Hrows.
  exists (fold_left (csv_row_step column) rs ∅). split.
  - unfold load_from_csv, bind, fs_get, open_read, lift, ret, FS.isfile.
    rewrite Hread. cbn. rewrite Hread, Hnames.
    rewrite bool_decide_eq_true_2 by done. cbn. by rewrite Hrows.
  - intros u. rewrite csv_rows_spec. split.
    + intros [H|H]; [by apply not_elem_of_empty in H|done].
    + by right.
Qed.

(** X12.  When the CSV file has no column of the name asked for (or no
    header at all), the extractor prints the column line with the names it
    found and returns the empty set without reading a row: rows that could
    not be read do no harm. *)
Theorem load_from_csv_column_missing (path column : pystr) (w : world)
    (content : list N) (names : option (list pystr)) :
  FS.read (fs w) path = Some content ->
  fieldnames (csv_DictReader content) = Ok names ->
  column ∉ default [] names ->
  load_from_csv path column w =
    (mkWorld (fs w) (stdin w) (http w)
       (stdout w ++ [MsgCsvColumnNotFound column path names]) (requests w), Ok ∅).
Proof.
  intros Hread Hnames Hcol.
  unfold load_from_csv, bind, fs_get, open_read, lift, ret, print, FS.isfile.
  rewrite Hread. cbn. rewrite Hread, Hnames.
  by rewrite bool_decide_eq_false_2.
Qed.

Lemma report_invalid_prints (us : list pystr) : forall w,
  report_invalid us w =
    (mkWorld (fs w) (stdin w) (http w) (stdout w ++ ignored_lines us) (requests w),
     Ok tt).
Proof.
  unfold ignored_lines.
  induction us as [|u us IH]; intros w; cbn [report_invalid List.filter List.map].
  - unfold ret. rewrite app_nil_r. by destruct w.
  - unfold bind. destruct (is_valid_url u); cbn [negb].
    + unfold ret. rewrite IH. done.
    + unfold print. rewrite IH. cbn. by rewrite <- app_assoc.
Qed.

(** X13.  With the literal URLs as the only source, [collect_urls]
    returns the valid ones among them and prints one [Ignored] line for
    each invalid one, in the order given; it does nothing else. *)
Theorem collect_urls_literal_only (args : arguments) (w : world) :
  given (args_file args) = false ->
  args_stdin args = false ->
  given (args_csv args) = false ->
  given (args_json args) = false ->
  given (args_sitemap args) = false ->
  let us := default [] (args_urls args) in
  collect_urls args w =
    (mkWorld (fs w) (stdin w) (http w) (stdout w ++ ignored_lines us) (requests w),
     Ok (list_to_set (List.filter is_valid_url us))).
Proof.
  intros Hf Hs Hc Hj Hm us. unfold collect_urls. rewrite Hf, Hs, Hc, Hj, Hm.
  unfold us. destruct (args_urls args) as [[|u l]|]; cbn [from_option id].
  - unfold bind, ret. cbn. rewrite app_nil_r. by destruct w.
  - unfold bind, ret. rewrite report_invalid_prints.
    by rewrite union_empty_l_L.
  - unfold bind, ret. cbn. rewrite app_nil_r. by destruct w.
Qed.

(** X14.  A URL file that cannot be decoded is not recovered from: the
    exception leaves [load_from_file_lines], [collect_urls] and [main].
    By then only the [Ignored] lines of the literal URLs have been
    printed; the standard input has not been read, no GET has been issued
    and nothing is downloaded. *)
Theorem undecodable_file_aborts (args : arguments) (path : pystr) (w : world)
    (content : list N) (e : exn) :
  args_file args = Some path ->
  path <> [] ->
  FS.read (fs w) path = Some content ->
  text_lines content = Raise e ->
  let w' := mkWorld (fs w) (stdin w) (http w)
              (stdout w ++ ignored_lines (default [] (args_urls args)))
              (requests w) in
  load_from_file_lines path w = (w, Raise e)
  /\ collect_urls args w = (w', Raise e)
  /\ main args w = (w', Raise e).
Proof.
  intros Hf Hp Hread Hlines w'.
  assert (E : forall w0, fs w0 = fs w ->
                         load_from_file_lines path w0 = (w0, Raise e)).
  { intros w0 Hw0.
    unfold load_from_file_lines, bind, fs_get, open_read, lift, FS.isfile.
    rewrite Hw0, Hread. cbn. by rewrite Hw0, Hread, Hlines. }
  assert (Ec : collect_urls args w = (w', Raise e)).
  { unfold collect_urls. rewrite Hf.
    assert (Hg : given (Some path) = true) by by destruct path.
    rewrite Hg. change (default [] (Some path)) with path.
    unfold bind at 1. unfold bind at 2.
    assert (E1 : forall (urls : gset pystr),
              (match args_urls args with
               | Some (u :: us) =>
                   bind (report_invalid (u :: us)) (fun _ => ret urls)
               | _ => ret ∅
               end) w
              = (w', Ok (match args_urls args with
                         | Some (u :: us) => urls
                         | _ => ∅
                         end))).
    { intros urls. unfold w'. destruct (args_urls args) as [[|u us]|];
        cbn [from_option id].
      - unfold ret, ignored_lines. cbn. rewrite app_nil_r. by destruct w.
      - unfold bind. by rewrite report_invalid_prints.
      - unfold ret, ignored_lines. cbn. rewrite app_nil_r. by destruct w. }
    destruct (args_urls args) as [[|u us]|] eqn:Hu.
    - rewrite (E1 ∅). unfold bind. by rewrite (E w').
    - rewrite E1. unfold bind. by rewrite (E w').
    - rewrite (E1 ∅). unfold bind. by rewrite (E w'). }
  split; [by apply E|]. split; [done|]. unfold main, bind. by rewrite Ec.
Qed.

End ExtractorDetails.

(** * Further properties of the aggregator and the coordinator *)

Lemma no_io_ret {A} (a : A) : no_io (ret a).
Proof. by intros w. Qed.

Lemma no_io_lift {A} (r : result A) : no_io (lift r).
Proof. by intros w. Qed.

Lemma no_io_print (m : message) : no_io (print m).
Proof. by intros w. Qed.

Lemma no_io_fs_get {A} (q : FS.t -> A) : no_io (fs_get q).
Proof. by intros w. Qed.

Lemma no_io_bind {A B} (m : M A) (k : A -> M B) :
  no_io m -> (forall a, no_io (k a)) -> no_io (bind m k).
Proof.
  intros Hm Hk w. unfold bind. destruct (Hm w) as [Hr Hs].
  destruct (m w) as [w1 [a|e]]; cbn in *; [|done].
  destruct (Hk a w1) as [Hr' Hs']. by rewrite Hr', Hs'.
Qed.

Lemma no_io_try_catch {A} (body : M A) (handler : exn -> M A) :
  no_io body -> (forall e, no_io (handler e)) -> no_io (try_catch body handler).
Proof.
  intros Hb Hh w. unfold try_catch. destruct (Hb w) as [Hr Hs].
  destruct (body w) as [w1 [a|e]]; cbn in *; [done|].
  destruct (Hh e w1) as [Hr' Hs']. by rewrite Hr', Hs'.
Qed.

Create HintDb no_io.
#[local] Hint Resolve no_io_ret no_io_lift no_io_print no_io_fs_get : no_io.

Ltac no_io_step :=
  lazymatch goal with
  | |- no_io (bind _ _) => apply no_io_bind; [|intros ?]
  | |- no_io (try_catch _ _) => apply no_io_try_catch; [|intros ?]
  | |- no_io (if ?c then _ else _) => destruct c
  | |- no_io (match ?x with _ => _ end) => destruct x
  | |- no_io _ => solve [auto with no_io]
  end.

Section AggregatorDetails.

Context {lib : PyLib}.

Lemma no_io_open_read (path : pystr) : no_io (open_read path).
Proof. by intros w. Qed.

#[local] Hint Resolve no_io_open_read : no_io.

Lemma load_from_file_lines_no_io (path : pystr) : no_io (load_from_file_lines path).
Proof. unfold load_from_file_lines. repeat no_io_step. Qed.

Lemma load_from_csv_no_io (path column : pystr) : no_io (load_from_csv path column).
Proof. unfold load_from_csv. repeat no_io_step. Qed.

Lemma load_from_json_no_io (path : pystr) (key : option pystr) :
  no_io (load_from_json path key).
Proof. unfold load_from_json. repeat no_io_step. Qed.

Lemma report_invalid_no_io (us : list pystr) : no_io (report_invalid us).
Proof. intros w. by rewrite report_invalid_prints. Qed.

Lemma load_from_sitemap_io (source : pystr) (w : world) :
  stdin (fst (load_from_sitemap source w)) = stdin w
  /\ requests (fst (load_from_sitemap source w))
     = requests w ++ (if is_valid_url source then [source] else []).
Proof.
  unfold load_from_sitemap, try_catch, bind, fs_get, open_read, requests_get, lift,
    ret, print, FS.isfile.
  destruct (is_valid_url source); cbn.
  - destruct (http w source) as [status_code content|]; cbn; [|done].
    destruct (raise_for_status (status_code, content)) as [[]|e]; cbn; [|done].
    by destruct (ET_fromstring content).
  - rewrite app_nil_r.
    destruct (FS.read (fs w) source) as [content|] eqn:Hread; cbn; [|done].
    rewrite Hread. cbn. by destruct (ET_fromstring content).
Qed.

Lemma bind_ok_inv {A B} (m : M A) (k : A -> M B) (w w' : world) (b : B) :
  bind m k w = (w', Ok b) ->
  exists w1 a, m w = (w1, Ok a) /\ k a w1 = (w', Ok b).
Proof.
  unfold bind. destruct (m w) as [w1 [a|e]]; [|discriminate]. eauto.
Qed.

Lemma no_io_source (active : bool) (extractor : M (gset pystr))
    (urls : gset pystr) :
  no_io extractor ->
  no_io (if active then bind extractor (fun more => ret (urls ∪ more)) else ret urls).
Proof. intros H. repeat no_io_step. Qed.

Lemma no_io_run {A} (m : M A) (w w' : world) (r : result A) :
  no_io m -> m w = (w', r) -> requests w' = requests w /\ stdin w' = stdin w.
Proof. intros H E. specialize (H w). by rewrite E in H. Qed.

(** X15.  [collect_urls] runs only the extractors asked for: when it
    returns, the standard input has been read only if [stdin] was asked
    for, and the only GET it may have issued is the one of a sitemap given
    as a URL. *)
Theorem collect_urls_runs_what_is_asked (args : arguments) (w w' : world)
    (urls : gset pystr) :
  collect_urls args w = (w', Ok urls) ->
  stdin w' = (if args_stdin args then [] else stdin w)
  /\ requests w'
     = requests w
       ++ (if given (args_sitemap args)
              && is_valid_url (default [] (args_sitemap args))
           then [default [] (args_sitemap args)] else []).
Proof.
  intros H. unfold collect_urls in H.
  apply bind_ok_inv in H as (w1 & urls1 & H1 & H).
  apply bind_ok_inv in H as (w2 & urls2 & H2 & H).
  apply bind_ok_inv in H as (w3 & urls3 & H3 & H).
  apply bind_ok_inv in H as (w4 & urls4 & H4 & H).
  apply bind_ok_inv in H as (w5 & urls5 & H5 & H).
  apply bind_ok_inv in H as (w6 & urls6 & H6 & H).
  injection H as <- <-.
  assert (F1 : requests w1 = requests w /\ stdin w1 = stdin w).
  { destruct (args_urls args) as [[|u us]|]; try by injection H1 as <- _.
    eapply no_io_run; [|exact H1].
    apply no_io_bind; [apply report_invalid_no_io|]. intros ?. apply no_io_ret. }
  assert (F2 : requests w2 = requests w1 /\ stdin w2 = stdin w1).
  { eapply no_io_run; [|exact H2].
    apply no_io_source, load_from_file_lines_no_io. }
  assert (F3 : requests w3 = requests w2
               /\ stdin w3 = (if args_stdin args then [] else stdin w2)).
  { destruct (args_stdin args); [|by injection H3 as <- _].
    unfold bind, load_from_stdin, read_stdin, ret in H3. cbn in H3.
    by injection H3 as <- _. }
  assert (F4 : requests w4 = requests w3 /\ stdin w4 = stdin w3).
  { eapply no_io_run; [|exact H4]. apply no_io_source, load_from_csv_no_io. }
  assert (F5 : requests w5 = requests w4 /\ stdin w5 = stdin w4).
  { eapply no_io_run; [|exact H5]. apply no_io_source, load_from_json_no_io. }
  assert (F6 : stdin w6 = stdin w5
               /\ requests w6
                  = requests w5
                    ++ (if given (args_sitemap args)
                           && is_valid_url (default [] (args_sitemap args))
                        then [default [] (args_sitemap args)] else [])).
  { destruct (given (args_sitemap args)); cbn [andb].
    - apply bind_ok_inv in H6 as (w6' & more & H6 & H). injection H as <- _.
      pose proof (load_from_sitemap_io (default [] (args_sitemap args)) w5) as Hio.
      by rewrite H6 in Hio.
    - injection H6 as <- _. by rewrite app_nil_r. }
  destruct F1 as [F1r F1s], F2 as [F2r F2s], F3 as [F3r F3s], F4 as [F4r F4s],
    F5 as [F5r F5s], F6 as [F6s F6r].
  split.
  - destruct (args_stdin args); congruence.
  - congruence.
Qed.

(** X16.  Every URL of the set [collect_urls] returns has a resolved
    path, in either mode and for every output folder: inside [main] the
    path resolution of a worker cannot raise. *)
Theorem collected_urls_resolve (args : arguments) (w w' : world)
    (urls : gset pystr) (u : pystr) :
  collect_urls args w = (w', Ok urls) ->
  u ∈ urls ->
  forall out_dir preserve_path,
    exists filepath, resolve_filepath u out_dir preserve_path = Ok filepath.
Proof.
  intros H Hu out_dir preserve_path.
  apply resolve_filepath_valid.
  destruct (collect_urls_ok args w) as (_ & _ & Hv).
  apply (Hv urls); [by rewrite H|done].
Qed.

(** X17.  A worker count that is not positive makes [main] raise
    [ValueError] when it builds the pool: the output directory has been
    made and the [Downloading] line printed by then, and no worker has
    run. *)
Theorem main_rejects_empty_pool (args : arguments) (w wc w2 : world)
    (urls : gset pystr) :
  collect_urls args w = (wc, Ok urls) ->
  urls <> ∅ ->
  fs_do (FS.makedirs (args_out args)) wc = (w2, Ok tt) ->
  (args_producers args <= 0)%Z ->
  main args w =
    (mkWorld (fs w2) (stdin wc) (http wc)
       (stdout wc ++ [MsgDownloading (size urls) (args_producers args)])
       (requests wc), Raise ValueError).
Proof.
  intros Hc Hne Hmk Hp. unfold main. unfold bind at 1. rewrite Hc.
  rewrite bool_decide_eq_false_2 by done.
  unfold bind at 1. rewrite Hmk. unfold bind at 1. cbn [print].
  unfold bind at 1.
  destruct (Z.leb_spec (args_producers args) 0) as [_|]; [|lia]. cbn [lift].
  unfold fs_do in Hmk. destruct (FS.makedirs (args_out args) (fs wc)) as [f r].
  by injection Hmk as <- _.
Qed.

(** X18.  When the output directory cannot be made, [main] raises the
    exception of [makedirs] before it prints the [Downloading] line: no
    worker runs and no GET is issued. *)
Theorem main_output_dir_failure (args : arguments) (w wc w2 : world)
    (urls : gset pystr) (e : exn) :
  collect_urls args w = (wc, Ok urls) ->
  urls <> ∅ ->
  fs_do (FS.makedirs (args_out args)) wc = (w2, Raise e) ->
  main args w = (w2, Raise e)
  /\ stdout w2 = stdout wc
  /\ requests w2 = requests wc.
Proof.
  intros Hc Hne Hmk. split.
  - unfold main. unfold bind at 1. rewrite Hc.
    rewrite bool_decide_eq_false_2 by done. unfold bind at 1. by rewrite Hmk.
  - unfold fs_do in Hmk. destruct (FS.makedirs (args_out args) (fs wc)) as [f r].
    by injection Hmk as <- _.
Qed.

(** X19.  On a non-empty set, with the output directory made and a
    positive worker count, [main] starts one worker for each URL of the
    set, each URL once, lets every one of them end, whatever it returns or
    raises, and then prints its last line and returns. *)
Theorem main_runs_every_url (args : arguments) (w wc w2 : world)
    (urls : gset pystr) :
  collect_urls args w = (wc, Ok urls) ->
  urls <> ∅ ->
  fs_do (FS.makedirs (args_out args)) wc = (w2, Ok tt) ->
  (0 < args_producers args)%Z ->
  exists (w3 : world) (futures : list (pystr * result unit)),
    submit_all args (elements urls)
      (mkWorld (fs w2) (stdin w2) (http w2)
         (stdout w2 ++ [MsgDownloading (size urls) (args_producers args)])
         (requests w2))
    = (w3, Ok futures)
    /\ main args w =
       (mkWorld (fs w3) (stdin w3) (http w3) (stdout w3 ++ [MsgAllCompleted])
          (requests w3), Ok tt)
    /\ List.map fst futures = elements urls
    /\ NoDup (List.map fst futures)
    /\ length futures = size urls.
Proof.
  intros Hc Hne Hmk Hp.
  set (wd := mkWorld (fs w2) (stdin w2) (http w2)
               (stdout w2 ++ [MsgDownloading (size urls) (args_producers args)])
               (requests w2)).
  destruct (submit_all_returns args (elements urls) wd) as (futures & Hf & Hmap).
  destruct (submit_all args (elements urls) wd) as [w3 r3] eqn:Hs.
  cbn in Hf. subst r3. exists w3, futures. split; [done|].
  split; [|split; [done|split]].
  - unfold main. unfold bind at 1. rewrite Hc.
    rewrite bool_decide_eq_false_2 by done.
    unfold bind at 1. rewrite Hmk. unfold bind at 1. cbn [print].
    unfold bind at 1.
    destruct (Z.leb_spec (args_producers args) 0) as [|_]; [lia|]. cbn [ret].
    unfold bind. fold wd. by rewrite Hs.
  - rewrite Hmap. apply NoDup_elements.
  - rewrite <- (length_map fst), Hmap. done.
Qed.

End AggregatorDetails.

(** * The parser and what follows the path *)

Section QueryAndFragment.

Context {lib : PyLib}.

Lemma urlsplit_stages (url : pystr) :
  urlsplit url =
  let '(sch, rest0) := scheme_stage (url_clean url) in
  rbind (netloc_stage rest0) (fun '(nl, rest) =>
    let '(p, q, f) := query_stage rest in
    if _checknetloc nl then Ok (mkParseResult sch nl p [] q f)
    else Raise ValueError).
Proof.
  unfold urlsplit, scheme_stage, netloc_stage, query_stage.
  fold (url_clean url). cbv zeta. set (u := url_clean url).
  assert (H : forall (sch rest0 : pystr),
    rbind
      (if Str.eqb (take 2 rest0) [ch_slash; ch_slash]
       then
         let '(netloc, url0) := _splitnetloc rest0 2 in
         if Str.contains ch_lbracket netloc && negb (Str.contains ch_rbracket netloc)
            || Str.contains ch_rbracket netloc && negb (Str.contains ch_lbracket netloc)
         then Raise ValueError
         else
           if Str.contains ch_lbracket netloc && Str.contains ch_rbracket netloc
              && negb (check_bracketed_host
                         (partition_before ch_rbracket
                            (partition_after ch_lbracket netloc)))
           then Raise ValueError
           else Ok (netloc, url0)
       else Ok ([], rest0))
      (fun '(netloc, url0) =>
         let '(url1, fragment) :=
           match split_once ch_hash url0 with
           | Some (u, f) => (u, f)
           | None => (url0, [])
           end in
         let '(url2, query) :=
           match split_once ch_question url1 with
           | Some (u, q) => (u, q)
           | None => (url1, [])
           end in
         if _checknetloc netloc
         then Ok (mkParseResult sch netloc url2 [] query fragment)
         else Raise ValueError)
    =
    rbind
      (if Str.eqb (take 2 rest0) [ch_slash; ch_slash]
       then
         let '(netloc, url0) := _splitnetloc rest0 2 in
         if Str.contains ch_lbracket netloc && negb (Str.contains ch_rbracket netloc)
            || Str.contains ch_rbracket netloc && negb (Str.contains ch_lbracket netloc)
         then Raise ValueError
         else
           if Str.contains ch_lbracket netloc && Str.contains ch_rbracket netloc
              && negb (check_bracketed_host
                         (partition_before ch_rbracket
                            (partition_after ch_lbracket netloc)))
           then Raise ValueError
           else Ok (netloc, url0)
       else Ok ([], rest0))
      (fun '(nl, rest) =>
         let '(p, q, f) :=
           let '(url0, fragment) :=
             match split_once ch_hash rest with
             | Some (u, f) => (u, f)
             | None => (rest, [])
             end in
           let '(url1, query) :=
             match split_once ch_question url0 with
             | Some (u, q) => (u, q)
             | None => (url0, [])
             end in
           (url1, query, fragment) in
         if _checknetloc nl then Ok (mkParseResult sch nl p [] q f)
         else Raise ValueError)).
  { intros sch rest0.
    destruct (Str.eqb (take 2 rest0) [ch_slash; ch_slash]).
    - destruct (_splitnetloc rest0 2) as [nl rest].
      destruct (_ || _); [done|]. destruct (_ && _ && _); [done|]. cbn [rbind].
      destruct (split_once ch_hash rest) as [[? ?]|];
        by destruct (split_once ch_question _) as [[? ?]|].
    - cbn [rbind].
      destruct (split_once ch_hash rest0) as [[? ?]|];
        by destruct (split_once ch_question _) as [[? ?]|]. }
  destruct (Str.find ch_colon u) as [[|i']|]; [apply H| |apply H].
  destruct (_ && _); apply H.
Qed.

Lemma find_app (x : N) (a b : pystr) :
  Str.find x (a ++ b) =
  match Str.find x a with
  | Some i => Some i
  | None => option_map (fun j => (length a + j)%nat) (Str.find x b)
  end.
Proof.
  induction a as [|y a IH]; cbn [app Str.find length].
  - by destruct (Str.find x b).
  - destruct (y =? x); [done|]. rewrite IH.
    destruct (Str.find x a); [done|]. by destruct (Str.find x b).
Qed.

Lemma find_Some_lt (x : N) (a : pystr) (i : nat) :
  Str.find x a = Some i -> (i < length a)%nat.
Proof.
  revert i. induction a as [|y a IH]; intros i; cbn; [discriminate|].
  destruct (y =? x); [intros H; injection H as <-; lia|].
  destruct (Str.find x a) as [j|]; [|discriminate].
  cbn. intros H. injection H as <-. specialize (IH j eq_refl). lia.
Qed.

Lemma find_notin (x : N) (a : pystr) : x ∉ a -> Str.find x a = None.
Proof.
  induction a as [|y a IH]; [done|]. intros H.
  apply not_elem_of_cons in H as [H1 H2]. cbn.
  destruct (N.eqb_spec y x); [congruence|]. by rewrite IH.
Qed.

Lemma find_Some_in (x : N) (a : pystr) (i : nat) :
  Str.find x a = Some i -> x ∈ a.
Proof.
  intros H. destruct (decide (x ∈ a)) as [|Hn]; [done|].
  by rewrite find_notin in H.
Qed.

Lemma lstrip_app_stop (P : N -> bool) (a : pystr) (c : N) (t : pystr) :
  P c = false -> Str.lstrip P (a ++ c :: t) = Str.lstrip P a ++ c :: t.
Proof.
  intros Hc. induction a as [|y a IH]; cbn [app Str.lstrip].
  - by rewrite Hc.
  - by destruct (P y).
Qed.

Lemma remove_app_keep (x : N) (a : pystr) (c : N) (t : pystr) :
  c <> x -> Str.remove x (a ++ c :: t) = Str.remove x a ++ c :: Str.remove x t.
Proof.
  intros Hc. unfold Str.remove. rewrite List.filter_app. cbn [List.filter].
  destruct (N.eqb_spec c x); [congruence|done].
Qed.

Lemma lstrip_notin (P : N -> bool) (x : N) (a : pystr) :
  x ∉ a -> x ∉ Str.lstrip P a.
Proof.
  induction a as [|y a IH]; [done|]. intros H. cbn.
  destruct (P y); [|done]. apply IH. apply not_elem_of_cons in H. tauto.
Qed.

Lemma remove_notin (y x : N) (a : pystr) : x ∉ a -> x ∉ Str.remove y a.
Proof.
  intros H Hin. apply H. unfold Str.remove in Hin.
  apply list_elem_of_In, filter_In in Hin as [Hin _]. by apply list_elem_of_In.
Qed.

Lemma url_clean_app (url : pystr) (c : N) (t : pystr) :
  c = ch_question \/ c = ch_hash ->
  url_clean (url ++ c :: t)
  = url_clean url ++ c :: Str.remove ch_lf (Str.remove ch_cr (Str.remove ch_tab t)).
Proof.
  intros Hc. unfold url_clean.
  rewrite lstrip_app_stop by (by destruct Hc as [-> | ->]).
  rewrite !remove_app_keep; (done || by destruct Hc as [-> | ->]).
Qed.

Lemma url_clean_notin (x : N) (url : pystr) : x ∉ url -> x ∉ url_clean url.
Proof. intros H. unfold url_clean. by apply remove_notin, remove_notin, remove_notin, lstrip_notin. Qed.


Lemma notin_drop (x : N) (n : nat) (l : pystr) : x ∉ l -> x ∉ drop n l.
Proof. intros H Hin. apply H. by apply (subseteq_drop n l). Qed.

Lemma scheme_stage_suffix (u : pystr) (c : N) (t : pystr) :
  is_scheme_char c = false -> c <> ch_colon ->
  scheme_stage (u ++ c :: t) = (fst (scheme_stage u), snd (scheme_stage u) ++ c :: t)
  /\ forall x, x ∉ u -> x ∉ snd (scheme_stage u).
Proof.
  intros Hsc Hc. unfold scheme_stage. rewrite find_app.
  destruct (Str.find ch_colon u) as [i|] eqn:E.
  - apply find_Some_lt in E. destruct i as [|i']; [done|]. cbv zeta.
    assert (Hhd : hd 0 (u ++ c :: t) = hd 0 u) by (destruct u; [cbn in E; lia|done]).
    rewrite Hhd, take_app_le by lia.
    destruct (_ && _); cbn [fst snd]; [|done].
    split; [by rewrite drop_app_le by lia|].
    intros x Hx. by apply notin_drop.
  - cbn [Str.find]. destruct (N.eqb_spec c ch_colon); [congruence|].
    destruct (Str.find ch_colon t) as [j|]; cbn [option_map]; [|done].
    rewrite Nat.add_succ_r. cbv zeta.
    assert (Hf : forallb is_scheme_char (take (S (length u + j)) (u ++ c :: t)) = false).
    { rewrite take_app_ge by lia.
      replace (S (length u + j) - length u)%nat with (S j) by lia.
      cbn [take]. rewrite forallb_app. cbn [forallb]. rewrite Hsc.
      by rewrite andb_false_r. }
    rewrite Hf, andb_false_r. done.
Qed.

Lemma find_from_suffix (x : N) (r : pystr) (c : N) (t : pystr) :
  (2 <= length r)%nat ->
  Str.find_from x 2 (r ++ c :: t) =
  match Str.find_from x 2 r with
  | Some p => Some p
  | None =>
      if c =? x then Some (length r)
      else option_map (fun j => (length r + 1 + j)%nat) (Str.find x t)
  end.
Proof.
  intros Hlen. unfold Str.find_from. rewrite drop_app_le by done. rewrite find_app.
  destruct (Str.find x (drop 2 r)) as [i|]; [done|]. cbn [option_map Str.find].
  rewrite length_drop. destruct (c =? x); cbn [option_map].
  - f_equal. lia.
  - destruct (Str.find x t); cbn [option_map]; [|done]. f_equal. lia.
Qed.

Lemma find_from_lt (x : N) (r : pystr) (p : nat) :
  Str.find_from x 2 r = Some p -> (p < length r)%nat.
Proof.
  unfold Str.find_from. destruct (Str.find x (drop 2 r)) as [i|] eqn:E; [|discriminate].
  apply find_Some_lt in E. rewrite length_drop in E.
  cbn. intros H. injection H as <-. lia.
Qed.

Lemma find_from_notin (x : N) (r : pystr) : x ∉ r -> Str.find_from x 2 r = None.
Proof.
  intros H. unfold Str.find_from. rewrite find_notin; [done|].
  by apply notin_drop.
Qed.

Lemma splitnetloc_suffix (r : pystr) (c : N) (t : pystr) :
  (2 <= length r)%nat -> ch_question ∉ r -> ch_hash ∉ r ->
  c = ch_question \/ c = ch_hash ->
  _splitnetloc (r ++ c :: t) 2
  = (fst (_splitnetloc r 2), snd (_splitnetloc r 2) ++ c :: t)
  /\ exists d, snd (_splitnetloc r 2) = drop d r.
Proof.
  intros Hlen Hq Hh Hc. unfold _splitnetloc. cbn [fold_left fst snd].
  rewrite !find_from_suffix by done.
  rewrite (find_from_notin ch_question r Hq), (find_from_notin ch_hash r Hh).
  rewrite length_app. cbn [length].
  set (dr := match Str.find_from ch_slash 2 r with
             | Some wdelim => Nat.min (length r) wdelim
             | None => length r
             end).
  assert (Hdr : (dr <= length r)%nat).
  { unfold dr. destruct (Str.find_from ch_slash 2 r); lia. }
  match goal with |- (drop 2 (take ?ds _), _) = _ /\ _ =>
    assert (Hds : ds = dr) end.
  { unfold dr. destruct (Str.find_from ch_slash 2 r) as [p|] eqn:Ep.
    - apply find_from_lt in Ep.
      destruct Hc as [-> | ->]; cbn;
        destruct (Str.find _ t); cbn; lia.
    - destruct Hc as [-> | ->]; cbn;
        repeat (match goal with |- context [Str.find ?x t] =>
                  destruct (Str.find x t); cbn end); lia. }
  rewrite Hds. rewrite take_app_le, drop_app_le by done.
  split; [done|]. by exists dr.
Qed.

Lemma netloc_stage_suffix (r : pystr) (c : N) (t : pystr) :
  ch_question ∉ r -> ch_hash ∉ r ->
  c = ch_question \/ c = ch_hash ->
  netloc_stage (r ++ c :: t)
  = match netloc_stage r with
    | Ok (nl, rem) => Ok (nl, rem ++ c :: t)
    | Raise e => Raise e
    end
  /\ forall nl rem, netloc_stage r = Ok (nl, rem) ->
                   (ch_question ∉ rem) /\ (ch_hash ∉ rem).
Proof.
  intros Hq Hh Hc. unfold netloc_stage.
  assert (Hc' : c <> ch_slash) by (by destruct Hc as [-> | ->]).
  assert (Et : Str.eqb (take 2 (r ++ c :: t)) [ch_slash; ch_slash]
               = Str.eqb (take 2 r) [ch_slash; ch_slash]).
  { destruct r as [|a [|b r']]; cbn [app take]; [| |done].
    - unfold Str.eqb. rewrite !bool_decide_eq_false_2; [done|done|].
      intros H. destruct t; injection H; congruence.
    - unfold Str.eqb. rewrite !bool_decide_eq_false_2; [done|done|].
      intros H. injection H; congruence. }
  rewrite Et. destruct (Str.eqb (take 2 r) [ch_slash; ch_slash]) eqn:E.
  - assert (Hlen : (2 <= length r)%nat).
    { apply Str_eqb_eq in E. destruct r as [|a [|b r']]; cbn in E |- *;
        try discriminate; lia. }
    destruct (splitnetloc_suffix r c t Hlen Hq Hh Hc) as [Hs (d & Hd)].
    rewrite Hs. destruct (_splitnetloc r 2) as [nl rem]. cbn [fst snd] in *.
    split.
    + destruct (_ || _); [done|]. by destruct (_ && _ && _).
    + intros nl' rem' H.
      destruct (_ || _); [discriminate|]. destruct (_ && _ && _); [discriminate|].
      injection H as <- <-. subst rem.
      split; by apply notin_drop.
  - split; [done|]. intros nl rem H. by injection H as <- <-.
Qed.

Lemma query_stage_suffix (rem : pystr) (c : N) (t : pystr) :
  ch_question ∉ rem -> ch_hash ∉ rem ->
  c = ch_question \/ c = ch_hash ->
  fst (fst (query_stage (rem ++ c :: t))) = rem
  /\ fst (fst (query_stage rem)) = rem.
Proof.
  intros Hq Hh Hc. unfold query_stage, split_once. split.
  - rewrite find_app, (find_notin _ _ Hh). cbn [Str.find].
    destruct Hc as [-> | ->].
    + change (ch_question =? ch_hash) with false. cbv iota.
      destruct (Str.find ch_hash t) as [j|]; cbn [option_map].
      * rewrite take_app_ge by lia.
        replace (length rem + S j - length rem)%nat with (S j) by lia.
        cbn [take]. rewrite find_app, (find_notin _ _ Hq). cbn [Str.find].
        rewrite N.eqb_refl. cbn [option_map]. rewrite Nat.add_0_r.
        cbn [fst]. by rewrite take_app_length.
      * rewrite find_app, (find_notin _ _ Hq). cbn [Str.find].
        rewrite N.eqb_refl. cbn [option_map]. rewrite Nat.add_0_r.
        cbn [fst]. by rewrite take_app_length.
    + rewrite N.eqb_refl. cbn [option_map]. rewrite Nat.add_0_r.
      rewrite take_app_length. by rewrite (find_notin _ _ Hq).
  - by rewrite (find_notin _ _ Hh), (find_notin _ _ Hq).
Qed.

Lemma urlsplit_suffix (url : pystr) (c : N) (t : pystr) :
  c = ch_question \/ c = ch_hash ->
  ch_question ∉ url -> ch_hash ∉ url ->
  match urlsplit (url ++ c :: t), urlsplit url with
  | Ok p1, Ok p2 =>
      scheme p1 = scheme p2 /\ netloc p1 = netloc p2 /\ path p1 = path p2
  | Raise e1, Raise e2 => e1 = e2
  | _, _ => False
  end.
Proof.
  intros Hc Hq Hh. rewrite !urlsplit_stages, url_clean_app by done.
  set (t' := Str.remove ch_lf _).
  pose proof (url_clean_notin _ _ Hq) as Hq1.
  pose proof (url_clean_notin _ _ Hh) as Hh1.
  destruct (scheme_stage_suffix (url_clean url) c t') as [Hs Hn];
    [by destruct Hc as [-> | ->]|by destruct Hc as [-> | ->]|].
  rewrite Hs. destruct (scheme_stage (url_clean url)) as [sch rest0].
  cbn [fst snd] in *.
  destruct (netloc_stage_suffix rest0 c t' (Hn _ Hq1) (Hn _ Hh1) Hc) as [Hnl Hrem].
  rewrite Hnl. destruct (netloc_stage rest0) as [[nl rem]|e]; cbn [rbind]; [|done].
  destruct (Hrem nl rem eq_refl) as [Hq2 Hh2].
  destruct (query_stage_suffix rem c t' Hq2 Hh2 Hc) as [Hp1 Hp2].
  destruct (query_stage (rem ++ c :: t')) as [[p1 q1] f1].
  destruct (query_stage rem) as [[p2 q2] f2]. cbn [fst] in *. subst p1 p2.
  by destruct (_checknetloc nl).
Qed.

(** X20. The query and the fragment of a URL take no part in the path it
    is saved under, nor in its validity: appending ['?'] or ['#'] and any
    text to a URL that has neither gives the same resolved path (or the
    same exception) and the same verdict of the validator, in both
    modes. *)
Theorem resolve_filepath_ignores_query (url : pystr) (c : N) (t : pystr)
    (out_folder : pystr) (preserve_path : bool) :
  c = ch_question \/ c = ch_hash ->
  ch_question ∉ url -> ch_hash ∉ url ->
  resolve_filepath (url ++ c :: t) out_folder preserve_path
  = resolve_filepath url out_folder preserve_path
  /\ is_valid_url (url ++ c :: t) = is_valid_url url.
Proof.
  intros Hc Hq Hh. pose proof (urlsplit_suffix url c t Hc Hq Hh) as H.
  unfold resolve_filepath, is_valid_url, urlparse.
  destruct (urlsplit (url ++ c :: t)) as [p1|e1], (urlsplit url) as [p2|e2];
    try done; cbn [rbind try_except].
  - destruct H as (Hs & Hn & Hp). rewrite Hs, Hn, Hp.
    destruct (bool_decide (scheme p2 ∈ uses_params) && _);
      [destruct (_splitparams (path p2))|]; by cbn.
  - by subst.
Qed.

End QueryAndFragment.

(** * Further scenarios, run *)


(** [http://x/a] answers 200 with the body [4; 2], which replaces the
    content [1] of [out/a]. *)
Lemma download_and_save_stores_body_witness :
  let f2 := fst (FS.write (lit "out/a") [4; 2] fs_demo) in
  download_and_save (lib := lib0) (lit "http://x/a") (lit "out") false false w_demo
  = (mkWorld f2 [] http_demo
       [MsgGet (lit "http://x/a"); MsgSaved (lit "out/a")] [lit "http://x/a"],
     Ok tt)
  /\ FS.read f2 (lit "out/a") = Some [4; 2]
  /\ forall q, FS.locate fs_demo q <> FS.locate fs_demo (lit "out/a") ->
               FS.read f2 q = FS.read fs_demo q.
Proof.
  apply (download_and_save_stores_body (lib := lib0) (lit "http://x/a") (lit "out")
           false false w_demo w_demo (lit "out/a") 200 [4; 2]); by vm_compute.
Defined.

(** Scenario K, the key path [data.urls]: of the three elements of the
    list one is a valid string. *)
Lemma load_from_json_key_path_witness :
  load_from_json (lib := lib_keyed) (lit "urls.json") (Some (lit "data.urls")) w_demo
  = (w_demo, Ok {[lit "http://x/f1"]})
  /\ exists urls : gset pystr,
       load_from_json (lib := lib_keyed) (lit "urls.json")
         (Some (Str.join ch_dot [lit "data"; lit "urls"])) w_demo
       = (w_demo, Ok urls)
       /\ forall u,
            u ∈ urls <->
            is_valid_url (lib := lib_keyed) u = true
            /\ (leads_to scenario_K [lit "data"; lit "urls"] (JStr u)
                \/ exists items,
                     leads_to scenario_K [lit "data"; lit "urls"] (JList items)
                     /\ JStr u ∈ items).
Proof.
  split; [by vm_compute|].
  apply (load_from_json_key_path (lib := lib_keyed) (lit "urls.json")
           [lit "data"; lit "urls"] w_demo [123] scenario_K); try by vm_compute.
  repeat constructor; apply (bool_decide_unpack _); by vm_compute.
Defined.

(** The lines of [urls.txt]: one of the three is a URL, with a space on
    each side. *)
Lemma load_from_file_lines_content_witness :
  load_from_file_lines (lib := lib_text) (lit "urls.txt") w_files
  = (w_files, Ok {[lit "http://x/a.txt"]})
  /\ trimmed_of (lit " http://x/a.txt ") (lit "http://x/a.txt")
  /\ exists urls : gset pystr,
       load_from_file_lines (lib := lib_text) (lit "urls.txt") w_files
       = (w_files, Ok urls)
       /\ forall u, u ∈ urls <->
                    is_valid_url (lib := lib_text) u = true
                    /\ exists line,
                         line ∈ [lit " http://x/a.txt "; [ch_lf]; lit "nope"]
                         /\ trimmed_of line u.
Proof.
  split; [by vm_compute|]. split.
  - exists [32], [32]. repeat split; try by vm_compute.
    + intros x Hx. vm_compute in Hx. by injection Hx as <-.
    + intros x Hx. vm_compute in Hx. by injection Hx as <-.
  - apply (load_from_file_lines_content (lib := lib_text) (lit "urls.txt") w_files
             [104]); by vm_compute.
Defined.

(** There is no file [none.txt]. *)
Lemma missing_file_is_empty_witness :
  load_from_file_lines (lib := lib0) (lit "none.txt") w_demo
  = (mkWorld fs_demo [] http_demo [MsgUrlFileNotFound (lit "none.txt")] [], Ok ∅)
  /\ load_from_csv (lib := lib0) (lit "none.txt") (lit "url") w_demo
     = (mkWorld fs_demo [] http_demo [MsgCsvFileNotFound (lit "none.txt")] [],
        Ok ∅).
Proof.
  apply (missing_file_is_empty (lib := lib0) (lit "none.txt") (lit "url") w_demo).
  by vm_compute.
Defined.

(** Scenario C, the column [url]. *)
Lemma load_from_csv_content_witness :
  exists urls : gset pystr,
    load_from_csv (lib := lib_text) (lit "urls.csv") (lit "url") w_files
    = (w_files, Ok urls)
    /\ forall u,
         u ∈ urls <->
         is_valid_url (lib := lib_text) u = true
         /\ exists row,
              row ∈ [ ({[ lit "id" := Some (lit "1");
                          lit "url" := Some (lit "http://x/a") ]}
                        : gmap pystr (option pystr));
                      {[ lit "id" := Some (lit "2"); lit "url" := Some (lit "bad") ]} ]
              /\ u = strip (csv_cell row (lit "url")).
Proof.
  apply (load_from_csv_content (lib := lib_text) (lit "urls.csv") (lit "url") w_files
           [105] (Some [lit "id"; lit "url"])); [by vm_compute|by vm_compute| |done].
  apply (bool_decide_unpack _). by vm_compute.
Defined.

(** Scenario C has no column [link]. *)
Lemma load_from_csv_column_missing_witness :
  load_from_csv (lib := lib_text) (lit "urls.csv") (lit "link") w_files
  = (mkWorld (fs w_files) (stdin w_files) http_demo
       [MsgCsvColumnNotFound (lit "link") (lit "urls.csv")
          (Some [lit "id"; lit "url"])] [], Ok ∅).
Proof.
  apply (load_from_csv_column_missing (lib := lib_text) (lit "urls.csv") (lit "link")
           w_files [105] (Some [lit "id"; lit "url"]));
    [by vm_compute|by vm_compute|].
  apply (bool_decide_unpack _). by vm_compute.
Defined.

(** Two literal URLs, one of them invalid. *)
Lemma collect_urls_literal_only_witness :
  collect_urls (lib := lib0)
    (args_demo (Some [lit "http://x/a.txt"; lit "nope"]) false false) w_demo
  = (mkWorld fs_demo [] http_demo
       (ignored_lines (lib := lib0) [lit "http://x/a.txt"; lit "nope"]) [],
     Ok (list_to_set
           (List.filter (is_valid_url (lib := lib0))
              [lit "http://x/a.txt"; lit "nope"]))).
Proof.
  apply (collect_urls_literal_only (lib := lib0)
           (args_demo (Some [lit "http://x/a.txt"; lit "nope"]) false false) w_demo);
    by vm_compute.
Defined.

(** The file [urls.txt] cannot be decoded; of the two literal URLs one
    is invalid. *)
Lemma undecodable_file_aborts_witness :
  let args := mkArguments (Some [lit "nope"; lit "http://x/a"]) (Some (lit "urls.txt"))
                false None (lit "url") None None None (lit "out") false false 6 in
  let w' := mkWorld (fs w_files) (stdin w_files) http_demo
              ([] ++ ignored_lines (lib := lib_failing) [lit "nope"; lit "http://x/a"])
              [] in
  load_from_file_lines (lib := lib_failing) (lit "urls.txt") w_files
  = (w_files, Raise UnicodeDecodeError)
  /\ collect_urls (lib := lib_failing) args w_files = (w', Raise UnicodeDecodeError)
  /\ main (lib := lib_failing) args w_files = (w', Raise UnicodeDecodeError).
Proof.
  apply (undecodable_file_aborts (lib := lib_failing)
           (mkArguments (Some [lit "nope"; lit "http://x/a"]) (Some (lit "urls.txt"))
              false None (lit "url") None None None (lit "out") false false 6)
           (lit "urls.txt") w_files [104] UnicodeDecodeError); by vm_compute.
Defined.

(** The standard input and a sitemap given as a URL are both asked for:
    the input is read to its end and the sitemap is fetched. *)
Lemma collect_urls_runs_what_is_asked_witness :
  let args := mkArguments None None true None (lit "url") None None
                (Some (lit "http://x/sitemap.xml")) (lit "out") false false 6 in
  let w' := mkWorld (fs w_files) [] http_demo [] [lit "http://x/sitemap.xml"] in
  collect_urls (lib := lib0) args w_files
  = (w', Ok {[lit "http://x/in"; lit "http://x/p1"; lit "http://x/p2"]})
  /\ stdin w' = []
  /\ requests w' = [] ++ [lit "http://x/sitemap.xml"].
Proof.
  assert (E : collect_urls (lib := lib0)
                (mkArguments None None true None (lit "url") None None
                   (Some (lit "http://x/sitemap.xml")) (lit "out") false false 6)
                w_files
              = (mkWorld (fs w_files) [] http_demo [] [lit "http://x/sitemap.xml"],
                 Ok {[lit "http://x/in"; lit "http://x/p1"; lit "http://x/p2"]}))
    by by vm_compute.
  split; [exact E|].
  exact (collect_urls_runs_what_is_asked (lib := lib0) _ _ _ _ E).
Defined.

(** Scenario A: the URL of the working set resolves under [out], with
    its path. *)
Lemma collected_urls_resolve_witness :
  exists filepath,
    resolve_filepath (lib := lib0) (lit "http://x/a.txt") (lit "out") true
    = Ok filepath.
Proof.
  apply (collected_urls_resolve (lib := lib0) scenario_A w_demo w_demo
           {[lit "http://x/a.txt"]} (lit "http://x/a.txt")); by vm_compute.
Defined.

(** A pool of no workers: [ValueError], after the [Downloading] line. *)
Lemma main_rejects_empty_pool_witness :
  main (lib := lib0)
    (mkArguments (Some [lit "http://x/new.txt"]) None false None (lit "url")
       None None None (lit "out") false false 0) w_demo
  = (mkWorld fs_demo [] http_demo
       [MsgDownloading (size ({[lit "http://x/new.txt"]} : gset pystr)) 0] [],
     Raise ValueError).
Proof.
  apply (main_rejects_empty_pool (lib := lib0)
           (mkArguments (Some [lit "http://x/new.txt"]) None false None (lit "url")
              None None None (lit "out") false false 0)
           w_demo w_demo w_demo {[lit "http://x/new.txt"]}); by vm_compute.
Defined.

(** The file [out/a] stands where the output directory is wanted. *)
Lemma main_output_dir_failure_witness :
  main (lib := lib0)
    (mkArguments (Some [lit "http://x/new.txt"]) None false None (lit "url")
       None None None (lit "out/a") false false 6) w_demo
  = (w_demo, Raise FileExistsError)
  /\ stdout w_demo = stdout w_demo
  /\ requests w_demo = requests w_demo.
Proof.
  apply (main_output_dir_failure (lib := lib0)
           (mkArguments (Some [lit "http://x/new.txt"]) None false None (lit "url")
              None None None (lit "out/a") false false 6)
           w_demo w_demo w_demo {[lit "http://x/new.txt"]} FileExistsError);
    by vm_compute.
Defined.

(** One URL, one worker. *)
Lemma main_runs_every_url_witness :
  let args := args_demo (Some [lit "http://x/new.txt"]) false false in
  let urls : gset pystr := {[lit "http://x/new.txt"]} in
  exists (w3 : world) (futures : list (pystr * result unit)),
    submit_all (lib := lib0) args (elements urls)
      (mkWorld fs_demo [] http_demo [MsgDownloading (size urls) 6] [])
    = (w3, Ok futures)
    /\ main (lib := lib0) args w_demo
       = (mkWorld (fs w3) (stdin w3) (http w3) (stdout w3 ++ [MsgAllCompleted])
            (requests w3), Ok tt)
    /\ List.map fst futures = elements urls
    /\ NoDup (List.map fst futures)
    /\ length futures = size urls.
Proof.
  apply (main_runs_every_url (lib := lib0)
           (args_demo (Some [lit "http://x/new.txt"]) false false)
           w_demo w_demo w_demo {[lit "http://x/new.txt"]}); by vm_compute.
Defined.

(** [http://x/a.txt?v=1] is saved where [http://x/a.txt] is. *)
Lemma resolve_filepath_ignores_query_witness :
  resolve_filepath (lib := lib0) (lit "http://x/a.txt" ++ ch_question :: lit "v=1")
    (lit "out") true
  = resolve_filepath (lib := lib0) (lit "http://x/a.txt") (lit "out") true
  /\ is_valid_url (lib := lib0) (lit "http://x/a.txt" ++ ch_question :: lit "v=1")
     = is_valid_url (lib := lib0) (lit "http://x/a.txt").
Proof.
  apply (resolve_filepath_ignores_query (lib := lib0) (lit "http://x/a.txt")
           ch_question (lit "v=1") (lit "out") true);
    [by left|apply (bool_decide_unpack _); by vm_compute
    |apply (bool_decide_unpack _); by vm_compute].
Defined.

(** In scenario K the key path [data.urls] leads to the list. *)
Lemma get_by_keypath_compose_witness :
  _get_by_keypath scenario_K (lit "data.urls")
  = Some (JList [JStr (lit "http://x/f1"); JStr (lit "nope");
                 JList [JStr (lit "http://x/deep")]]).
Proof.
  apply (proj2 get_by_keypath_compose scenario_K [lit "data"; lit "urls"]).
  - by vm_compute.
  - done.
  - repeat constructor; apply (bool_decide_unpack _); by vm_compute.
  - eapply leads_on; [by left|]. eapply leads_on; [by left|]. constructor.
Defined.

(** There is no file [none.json]. *)
Lemma load_from_json_recovers_witness :
  load_from_json (lib := lib0) (lit "none.json") None w_demo
  = (mkWorld fs_demo [] http_demo [MsgJsonFileNotFound (lit "none.json")] [], Ok ∅).
Proof.
  apply (proj1 (proj2 (load_from_json_recovers (lib := lib0) (lit "none.json")
                         None w_demo))).
  by vm_compute.
Defined.

